(** * PromptHub Nexus: the super-admin and invitation core

    A shallow embedding of the SQL and PL/pgSQL functions behind the
    administrative command surface and the signup trigger: the role
    resolver of the initial schema migration ([get_user_org_role],
    [user_is_org_member]), the super-admin migration ([is_super_admin],
    [handle_invitation_signup]) and
    [supabase/migrations/20250127_super_admin_helpers.sql]
    ([create_user_invitation], [get_pending_invitations],
    [revoke_invitation], [promote_user_to_owner],
    [create_organization_as_super_admin]).

    Conventions of the embedding.
    - A table is the list of its rows in heap order.  [INSERT] appends a row,
      [UPDATE] rewrites rows in place, a [SELECT ... LIMIT 1] without
      [ORDER BY] returns the first row of the scan.
    - Declared constraints (primary keys, [UNIQUE], the foreign keys on
      [org_id]) are checked by the insert primitives and raise an error.
    - A function body is a computation in a state-and-error monad over the
      database.  A raised error aborts the enclosing transaction, so the
      committed database is the one the call started from.
    - [now()] is the transaction timestamp and [auth.uid()] the caller: both
      are fixed during a call and live in a [session].  Values drawn from
      [gen_random_uuid()] and [generate_invitation_token()] are arguments.
    - All modelled functions are [SECURITY DEFINER]: they run with the rights
      of the table owner, so row-level policies do not filter their
      statements.
    - Columns that no function reads or compares (the surrogate [id] of
      [organization_members], the [created_at]/[updated_at] stamps of
      organizations, members and profiles) are left out of the rows. *)

From stdpp Require Import base decidable option list sorting strings.
From Stdlib Require Import ZArith NArith Ascii String Lia.

Local Open Scope Z_scope.

(** ** Text: [LOWER] and the address pattern *)

Module Text.

Definition in_range (lo hi c : ascii) : bool :=
  ((N_of_ascii lo <=? N_of_ascii c) && (N_of_ascii c <=? N_of_ascii hi))%N.

Definition is_upper (c : ascii) : bool := in_range "A" "Z" c.
Definition is_lower (c : ascii) : bool := in_range "a" "z" c.
Definition is_digit (c : ascii) : bool := in_range "0" "9" c.
Definition is_char (x c : ascii) : bool := bool_decide (x = c).

(** [LOWER] on one character.  Addresses that pass the format check of
    [create_user_invitation] are plain ASCII, where [LOWER] maps [A-Z] to
    [a-z] and fixes everything else. *)
Definition lower_ascii (c : ascii) : ascii :=
  if is_upper c then ascii_of_N (N_of_ascii c + 32) else c.

Fixpoint LOWER (s : string) : string :=
  match s with
  | EmptyString => EmptyString
  | String c s' => String (lower_ascii c) (LOWER s')
  end.

Fixpoint has_upper (s : string) : bool :=
  match s with
  | EmptyString => false
  | String c s' => is_upper c || has_upper s'
  end.

(** Regular expressions over character classes, matched by derivatives. *)
Inductive regex : Type :=
| re_none : regex
| re_eps : regex
| re_class : (ascii → bool) → regex
| re_cat : regex → regex → regex
| re_alt : regex → regex → regex
| re_star : regex → regex.

Fixpoint nullable (r : regex) : bool :=
  match r with
  | re_none => false
  | re_eps => true
  | re_class _ => false
  | re_cat r1 r2 => nullable r1 && nullable r2
  | re_alt r1 r2 => nullable r1 || nullable r2
  | re_star _ => true
  end.

Fixpoint deriv (c : ascii) (r : regex) : regex :=
  match r with
  | re_none => re_none
  | re_eps => re_none
  | re_class p => if p c then re_eps else re_none
  | re_cat r1 r2 =>
      if nullable r1
      then re_alt (re_cat (deriv c r1) r2) (deriv c r2)
      else re_cat (deriv c r1) r2
  | re_alt r1 r2 => re_alt (deriv c r1) (deriv c r2)
  | re_star r1 => re_cat (deriv c r1) (re_star r1)
  end.

(** The anchored match [s ~ '^r$']. *)
Fixpoint matches (r : regex) (s : string) : bool :=
  match s with
  | EmptyString => nullable r
  | String c s' => matches (deriv c r) s'
  end.

Definition re_plus (r : regex) : regex := re_cat r (re_star r).
Definition re_at_least_2 (r : regex) : regex := re_cat r (re_cat r (re_star r)).

(** [[A-Za-z0-9._%+-]] *)
Definition local_class (c : ascii) : bool :=
  is_upper c || is_lower c || is_digit c
  || is_char "." c || is_char "_" c || is_char "%" c || is_char "+" c
  || is_char "-" c.

(** [[A-Za-z0-9.-]] *)
Definition domain_class (c : ascii) : bool :=
  is_upper c || is_lower c || is_digit c || is_char "." c || is_char "-" c.

(** [[A-Za-z]] *)
Definition alpha_class (c : ascii) : bool := is_upper c || is_lower c.

(** ['^[A-Za-z0-9._%+-]+@[A-Za-z0-9.-]+\.[A-Za-z]{2,}$'] *)
Definition email_format : regex :=
  re_cat (re_plus (re_class local_class))
    (re_cat (re_class (is_char "@"))
       (re_cat (re_plus (re_class domain_class))
          (re_cat (re_class (is_char "."))
             (re_at_least_2 (re_class alpha_class))))).

End Text.

(** ** Rows and tables *)

Definition uuid : Type := N.

(** A [timestamptz], in microseconds since the epoch. *)
Definition timestamptz : Type := Z.

(** [interval 'n days'], with the session time zone at UTC. *)
Definition interval_days (n : Z) : Z := n * 86400000000.

Inductive org_role : Type := owner | admin | viewer | super_admin.

Global Instance org_role_eq_dec : EqDecision org_role.
Proof. solve_decision. Defined.

Record organization : Type := Organization {
  o_id : uuid;
  o_name : string;
  o_is_public : bool;
}.

Record organization_member : Type := Member {
  m_org_id : uuid;
  m_user_id : uuid;
  m_role : org_role;
}.

Record invitation : Type := Invitation {
  i_id : uuid;
  i_email : string;
  i_token : string;
  i_role : org_role;
  i_org_id : option uuid;
  i_invited_by : option uuid;
  i_expires_at : timestamptz;
  i_used_at : option timestamptz;
  i_created_at : timestamptz;
}.

Record profile : Type := Profile {
  p_id : uuid;
  p_email : string;
  p_display_name : option string;
}.

Global Instance organization_eq_dec : EqDecision organization.
Proof. solve_decision. Defined.
Global Instance organization_member_eq_dec : EqDecision organization_member.
Proof. solve_decision. Defined.
Global Instance invitation_eq_dec : EqDecision invitation.
Proof. solve_decision. Defined.
Global Instance profile_eq_dec : EqDecision profile.
Proof. solve_decision. Defined.

Record db : Type := Db {
  organizations : list organization;
  organization_members : list organization_member;
  invitations : list invitation;
  profiles : list profile;
}.

(** The row of [auth.users] a signup inserts ([NEW] in the trigger);
    [u_display_name] is [raw_user_meta_data->>'display_name']. *)
Record auth_user : Type := AuthUser {
  u_id : uuid;
  u_email : string;
  u_display_name : option string;
}.

Record session : Type := Session {
  auth_uid : option uuid;
  now : timestamptz;
}.

(** ** The transaction monad *)

Inductive sqlerr : Type :=
| raise_exception (msg : string)
| unique_violation (constraint : string)
| foreign_key_violation (constraint : string)
| not_null_violation (column : string).

Inductive outcome (A : Type) : Type :=
| Done (a : A) (d : db)
| Abort (e : sqlerr).
Arguments Done {A} a d.
Arguments Abort {A} e.

Record plpgsql (A : Type) : Type := Plpgsql { run : db → outcome A }.
Arguments Plpgsql {A} _.
Arguments run {A} _ _.

Global Instance plpgsql_ret : MRet plpgsql := λ A a, Plpgsql (λ d, Done a d).

Global Instance plpgsql_bind : MBind plpgsql := λ A B k m,
  Plpgsql (λ d,
    match run m d with
    | Done a d' => run (k a) d'
    | Abort e => Abort e
    end).

(** [RAISE EXCEPTION 'msg'] *)
Definition RAISE {A : Type} (msg : string) : plpgsql A :=
  Plpgsql (λ _, Abort (raise_exception msg)).

(** A read-only expression or [SELECT ... INTO]. *)
Definition query {A : Type} (q : db → A) : plpgsql A :=
  Plpgsql (λ d, Done (q d) d).

(** The database a call leaves behind: an abort rolls the transaction
    back. *)
Definition commit {A : Type} (m : plpgsql A) (d : db) : db :=
  match run m d with
  | Done _ d' => d'
  | Abort _ => d
  end.

(** The errors the specification files under [PermissionDenied]: the
    exceptions raised by the super-admin gate of each function. *)
Definition PermissionDenied (e : sqlerr) : Prop :=
  ∃ what, e = raise_exception ("Only super admin can " +:+ what).

(** ** Statements *)

Definition COALESCE {A : Type} (a b : option A) : option A :=
  match a with
  | Some x => Some x
  | None => b
  end.

Definition with_organizations (d : db) (l : list organization) : db :=
  Db l (organization_members d) (invitations d) (profiles d).
Definition with_organization_members (d : db) (l : list organization_member) : db :=
  Db (organizations d) l (invitations d) (profiles d).
Definition with_invitations (d : db) (l : list invitation) : db :=
  Db (organizations d) (organization_members d) l (profiles d).
Definition with_profiles (d : db) (l : list profile) : db :=
  Db (organizations d) (organization_members d) (invitations d) l.

Definition org_exists (d : db) (o : uuid) : Prop := o ∈ o_id <$> organizations d.

Global Instance org_exists_dec (d : db) (o : uuid) : Decision (org_exists d o).
Proof. unfold org_exists. apply _. Defined.

(** A nullable reference to organizations: null passes the foreign key. *)
Definition org_ref_ok (d : db) (o : option uuid) : bool :=
  match o with
  | Some o' => bool_decide (org_exists d o')
  | None => true
  end.

Definition member_key (m : organization_member) : uuid * uuid :=
  (m_org_id m, m_user_id m).

(** [INSERT INTO public.organizations] *)
Definition insert_organization (o : organization) : plpgsql () :=
  Plpgsql (λ d,
    if decide (org_exists d (o_id o))
    then Abort (unique_violation "organizations_pkey")
    else Done () (with_organizations d (organizations d ++ [o]))).

(** [INSERT INTO public.organization_members]: [UNIQUE(org_id, user_id)]
    and the foreign key to organizations. *)
Definition insert_organization_member (m : organization_member) : plpgsql () :=
  Plpgsql (λ d,
    if decide (member_key m ∈ member_key <$> organization_members d)
    then Abort (unique_violation "organization_members_org_id_user_id_key")
    else if decide (org_exists d (m_org_id m))
    then Done () (with_organization_members d (organization_members d ++ [m]))
    else Abort (foreign_key_violation "organization_members_org_id_fkey")).

(** [INSERT INTO public.invitations]: primary key, [token UNIQUE] and the
    foreign key of a non-null [org_id]. *)
Definition insert_invitation (i : invitation) : plpgsql () :=
  Plpgsql (λ d,
    if decide (i_id i ∈ i_id <$> invitations d)
    then Abort (unique_violation "invitations_pkey")
    else if decide (i_token i ∈ i_token <$> invitations d)
    then Abort (unique_violation "invitations_token_key")
    else if org_ref_ok d (i_org_id i)
    then Done () (with_invitations d (invitations d ++ [i]))
    else Abort (foreign_key_violation "invitations_org_id_fkey")).

(** [INSERT INTO public.profiles] *)
Definition insert_profile (p : profile) : plpgsql () :=
  Plpgsql (λ d,
    if decide (p_id p ∈ p_id <$> profiles d)
    then Abort (unique_violation "profiles_pkey")
    else Done () (with_profiles d (profiles d ++ [p]))).

(** [UPDATE ... SET ... WHERE ...] on one table; the result is [FOUND]. *)
Definition update_rows {A : Type} (set : A → A) (cond : A → Prop)
    `{∀ x, Decision (cond x)} (l : list A) : list A :=
  (λ x, if decide (cond x) then set x else x) <$> l.

Definition found_rows {A : Type} (cond : A → Prop)
    `{∀ x, Decision (cond x)} (l : list A) : bool :=
  bool_decide (Exists cond l).

Definition update_invitations (set : invitation → invitation)
    (cond : invitation → Prop) `{∀ x, Decision (cond x)} : plpgsql bool :=
  Plpgsql (λ d,
    Done (found_rows cond (invitations d))
         (with_invitations d (update_rows set cond (invitations d)))).

Definition update_organization_members (set : organization_member → organization_member)
    (cond : organization_member → Prop) `{∀ x, Decision (cond x)} : plpgsql bool :=
  Plpgsql (λ d,
    Done (found_rows cond (organization_members d))
         (with_organization_members d
            (update_rows set cond (organization_members d)))).

Definition set_expires_at (t : timestamptz) (i : invitation) : invitation :=
  Invitation (i_id i) (i_email i) (i_token i) (i_role i) (i_org_id i)
    (i_invited_by i) t (i_used_at i) (i_created_at i).

Definition set_used_at (t : timestamptz) (i : invitation) : invitation :=
  Invitation (i_id i) (i_email i) (i_token i) (i_role i) (i_org_id i)
    (i_invited_by i) (i_expires_at i) (Some t) (i_created_at i).

Definition set_role (r : org_role) (m : organization_member) : organization_member :=
  Member (m_org_id m) (m_user_id m) r.

(** [ORDER BY key DESC] *)
Definition desc_by {A : Type} (key : A → Z) : relation A := λ a b, key b ≤ key a.

Global Instance desc_by_dec {A : Type} (key : A → Z) : RelDecision (desc_by key).
Proof. intros a b. unfold desc_by. apply _. Defined.

Global Instance desc_by_total {A : Type} (key : A → Z) : Total (desc_by key).
Proof. intros a b. unfold desc_by. lia. Qed.

Global Instance desc_by_trans {A : Type} (key : A → Z) : Transitive (desc_by key).
Proof. intros a b c. unfold desc_by. lia. Qed.

Definition order_by_desc {A : Type} (key : A → Z) : list A → list A :=
  merge_sort (desc_by key).

(** ** Role resolver *)

(** [get_user_org_role(user_id, org_id)]: the role of the first matching
    row, or null. *)
Definition get_user_org_role (d : db) (user_id org_id : uuid) : option org_role :=
  m_role <$>
    head (filter (λ m, m_user_id m = user_id ∧ m_org_id m = org_id)
            (organization_members d)).

Definition user_is_org_member (d : db) (user_id org_id : uuid) : bool :=
  bool_decide (Exists (λ m, m_user_id m = user_id ∧ m_org_id m = org_id)
                 (organization_members d)).

(** [is_super_admin(user_id DEFAULT auth.uid())]; a null user matches no
    row. *)
Definition is_super_admin (cx : session) (user_id : option uuid) (d : db) : bool :=
  match COALESCE user_id (auth_uid cx) with
  | Some u =>
      bool_decide (Exists (λ m, m_user_id m = u ∧ m_role m = super_admin)
                     (organization_members d))
  | None => false
  end.

(** The call [public.is_super_admin()] with its default argument. *)
Definition caller_is_super_admin (cx : session) : plpgsql bool :=
  query (is_super_admin cx (auth_uid cx)).

(** ** Administrative command surface *)

(** [create_user_invitation(p_email, p_role, p_org_id)].  [new_id] is the
    value [gen_random_uuid()] gives the row and [token] the value of
    [generate_invitation_token()].  A call that leaves out [p_role] or
    [p_org_id] passes the declared defaults, [viewer] and null. *)
Definition create_user_invitation (cx : session) (p_email : string)
    (p_role : org_role) (p_org_id : option uuid)
    (new_id : uuid) (token : string) : plpgsql uuid :=
  sa ← caller_is_super_admin cx;
  if negb sa then RAISE "Only super admin can create invitations" else
  if negb (Text.matches Text.email_format p_email)
  then RAISE "Invalid email format" else
  insert_invitation
    {| i_id := new_id;
       i_email := Text.LOWER p_email;
       i_token := token;
       i_role := p_role;
       i_org_id := p_org_id;
       i_invited_by := auth_uid cx;
       i_expires_at := now cx + interval_days 7;
       i_used_at := None;
       i_created_at := now cx |};;
  mret new_id.

(** One row of the result of [get_pending_invitations()]. *)
Record pending_invitation : Type := PendingInvitation {
  r_id : uuid;
  r_email : string;
  r_role : org_role;
  r_org_name : string;
  r_expires_at : timestamptz;
  r_created_at : timestamptz;
}.

(** [invitations i LEFT JOIN organizations o ON i.org_id = o.id], for one
    invitation. *)
Definition left_join_organizations (d : db) (i : invitation)
    : list (invitation * option organization) :=
  match filter (λ o, i_org_id i = Some (o_id o)) (organizations d) with
  | [] => [(i, None)]
  | os => (λ o, (i, Some o)) <$> os
  end.

Definition pending_row (io : invitation * option organization) : pending_invitation :=
  {| r_id := i_id io.1;
     r_email := i_email io.1;
     r_role := i_role io.1;
     r_org_name := default "No Organization" (o_name <$> io.2);
     r_expires_at := i_expires_at io.1;
     r_created_at := i_created_at io.1 |}.

(** [get_pending_invitations()]: a plain SQL function; the super-admin test
    is a conjunct of its [WHERE] clause. *)
Definition get_pending_invitations (cx : session) (d : db) : list pending_invitation :=
  pending_row <$>
    order_by_desc (λ io, i_created_at io.1)
      (filter (λ io, is_super_admin cx (auth_uid cx) d = true
                     ∧ i_used_at io.1 = None
                     ∧ now cx < i_expires_at io.1)
         (invitations d ≫= left_join_organizations d)).

(** [revoke_invitation(invitation_id)] *)
Definition revoke_invitation (cx : session) (invitation_id : uuid) : plpgsql bool :=
  sa ← caller_is_super_admin cx;
  if negb sa then RAISE "Only super admin can revoke invitations" else
  update_invitations (set_expires_at (now cx - interval_days 1))
    (λ i, i_id i = invitation_id).

(** [promote_user_to_owner(p_user_id, p_org_id)] *)
Definition promote_user_to_owner (cx : session) (p_user_id p_org_id : uuid)
    : plpgsql bool :=
  sa ← caller_is_super_admin cx;
  if negb sa then RAISE "Only super admin can promote users" else
  update_organization_members (set_role owner)
    (λ m, m_user_id m = p_user_id ∧ m_org_id m = p_org_id).

(** [create_organization_as_super_admin(p_name, p_is_public)]; [new_id] is
    the generated key of the organization.  [user_id] is [NOT NULL], so a
    null [auth.uid()] could not be stored. *)
Definition create_organization_as_super_admin (cx : session) (p_name : string)
    (p_is_public : bool) (new_id : uuid) : plpgsql uuid :=
  sa ← caller_is_super_admin cx;
  if negb sa then RAISE "Only super admin can create organizations directly" else
  insert_organization
    {| o_id := new_id; o_name := p_name; o_is_public := p_is_public |};;
  let org_id := new_id in
  match auth_uid cx with
  | Some u =>
      insert_organization_member
        {| m_org_id := org_id; m_user_id := u; m_role := owner |}
  | None => Plpgsql (λ _, Abort (not_null_violation "user_id"))
  end;;
  mret org_id.

(** ** Signup trigger *)

(** [SELECT id FROM public.organizations WHERE is_public = true LIMIT 1] *)
Definition select_public_org (d : db) : option uuid :=
  o_id <$> head (filter (λ o, o_is_public o = true) (organizations d)).

(** [SELECT * FROM public.invitations WHERE email = NEW.email AND used_at IS
    NULL AND expires_at > now() ORDER BY created_at DESC LIMIT 1]; [None]
    when no row qualifies. *)
Definition select_invitation (cx : session) (NEW : auth_user) (d : db)
    : option invitation :=
  head (order_by_desc i_created_at
          (filter (λ i, i_email i = u_email NEW
                        ∧ i_used_at i = None
                        ∧ now cx < i_expires_at i)
             (invitations d))).

(** [invitation_record IS NOT NULL] on the [RECORD] variable filled by
    [SELECT * INTO].  The test on a row value is the row-wise one of SQL:
    it is true when the row is non-null and every one of its fields is
    non-null (PostgreSQL manual, Comparison Functions and Operators: "IS NOT
    NULL is true when the row expression itself is non-null and all the
    row's fields are non-null").  A [SELECT INTO] that finds no row sets all
    fields of the record to null.  Of the columns of [invitations], [org_id],
    [invited_by] and [used_at] are nullable. *)
Definition record_is_not_null (invitation_record : option invitation) : bool :=
  match invitation_record with
  | Some r =>
      bool_decide (is_Some (i_org_id r) ∧ is_Some (i_invited_by r)
                   ∧ is_Some (i_used_at r))
  | None => false
  end.

Definition new_profile (NEW : auth_user) : profile :=
  {| p_id := u_id NEW;
     p_email := u_email NEW;
     p_display_name := COALESCE (u_display_name NEW) (Some (u_email NEW)) |}.

(** The [THEN] arm of [handle_invitation_signup], for the selected
    invitation [r]; [new_org_id] is the key a created public organization
    would get. *)
Definition invited_signup (cx : session) (NEW : auth_user) (new_org_id : uuid)
    (r : invitation) : plpgsql () :=
  update_invitations (set_used_at (now cx)) (λ i, i_id i = i_id r);;
  insert_profile (new_profile NEW);;
  match i_org_id r with
  | Some o =>
      insert_organization_member
        {| m_org_id := o; m_user_id := u_id NEW; m_role := i_role r |}
  | None =>
      if decide (i_role r = super_admin) then
        found_org ← query select_public_org;
        public_org_id ←
          match found_org with
          | Some o => mret o
          | None =>
              insert_organization
                {| o_id := new_org_id; o_name := "Public Organization";
                   o_is_public := true |};;
              mret new_org_id
          end;
        insert_organization_member
          {| m_org_id := public_org_id; m_user_id := u_id NEW;
             m_role := super_admin |}
      else mret ()
  end.

(** The [ELSE] arm: a regular signup. *)
Definition regular_signup (NEW : auth_user) : plpgsql () :=
  public_org_id ← query select_public_org;
  insert_profile (new_profile NEW);;
  match public_org_id with
  | Some o =>
      insert_organization_member
        {| m_org_id := o; m_user_id := u_id NEW; m_role := viewer |}
  | None => mret ()
  end.

(** [handle_invitation_signup()], the [AFTER INSERT] trigger on
    [auth.users].  The guard is false on the all-null record, so the [None]
    case of the [THEN] arm is never entered. *)
Definition handle_invitation_signup (cx : session) (NEW : auth_user)
    (new_org_id : uuid) : plpgsql auth_user :=
  invitation_record ← query (select_invitation cx NEW);
  (if record_is_not_null invitation_record then
     match invitation_record with
     | Some r => invited_signup cx NEW new_org_id r
     | None => mret ()
     end
   else regular_signup NEW);;
  mret NEW.

(** ** Invitation lifecycle and schema constraints *)

Inductive lifecycle : Type := pending | expired | consumed.

(** The state of an invitation at the time of the session. *)
Definition status (cx : session) (i : invitation) : lifecycle :=
  match i_used_at i with
  | Some _ => consumed
  | None => if decide (now cx < i_expires_at i) then pending else expired
  end.

(** The declared constraints of the four tables: primary keys, the
    [UNIQUE] constraints and the foreign keys to organizations. *)
Definition consistent (d : db) : Prop :=
  NoDup (o_id <$> organizations d)
  ∧ NoDup (member_key <$> organization_members d)
  ∧ Forall (λ m, org_exists d (m_org_id m)) (organization_members d)
  ∧ NoDup (i_id <$> invitations d)
  ∧ NoDup (i_token <$> invitations d)
  ∧ Forall (λ i, org_ref_ok d (i_org_id i) = true) (invitations d)
  ∧ NoDup (p_id <$> profiles d).

Global Instance consistent_dec (d : db) : Decision (consistent d).
Proof. unfold consistent. apply _. Defined.

(** A computation keeps the declared constraints: whenever it completes
    on a consistent database, the database it leaves is consistent. *)
Definition preserves {A : Type} (m : plpgsql A) : Prop :=
  ∀ d a d', consistent d → run m d = Done a d' → consistent d'.

(** A user row that was just inserted into [auth.users]: the foreign keys
    to it mean that no profile and no membership can refer to it yet. *)
Definition new_user (d : db) (u : uuid) : Prop :=
  (u ∉ p_id <$> profiles d) ∧ (u ∉ m_user_id <$> organization_members d).

(** A call is refused with [PermissionDenied] and commits nothing. *)
Definition refused {A : Type} (m : plpgsql A) (d : db) : Prop :=
  (∃ e, run m d = Abort e ∧ PermissionDenied e) ∧ commit m d = d.

(** The committed effect of a successful [createOrganization]. *)
Definition organization_created (cx : session) (d : db) (name : string)
    (is_public : bool) (new_id : uuid) (d' : db) : Prop :=
  ∃ caller,
    auth_uid cx = Some caller
    ∧ organizations d' = organizations d ++ [Organization new_id name is_public]
    ∧ organization_members d'
      = organization_members d ++ [Member new_id caller owner]
    ∧ invitations d' = invitations d
    ∧ profiles d' = profiles d.

(** The organization an invitation refers to, if any. *)
Definition org_of (d : db) (i : invitation) : option organization :=
  head (filter (λ o, i_org_id i = Some (o_id o)) (organizations d)).

(** The result row that lists invitation [i]. *)
Definition listed (d : db) (i : invitation) : pending_invitation :=
  pending_row (i, org_of d i).

(** The membership a regular signup adds: viewer of the public
    organization, when there is one. *)
Definition viewer_membership (d : db) (NEW : auth_user) : list organization_member :=
  match select_public_org d with
  | Some o => [Member o (u_id NEW) viewer]
  | None => []
  end.

(** The database a regular signup of a new user commits. *)
Definition after_regular_signup (d : db) (NEW : auth_user) : db :=
  {| organizations := organizations d;
     organization_members := organization_members d ++ viewer_membership d NEW;
     invitations := invitations d;
     profiles := profiles d ++ [new_profile NEW] |}.

(** ** Sample data

    A small deployment used to instantiate the statements below: the public
    organization of the initial migration, a private one, the super-admin
    [root] and a viewer [alice]. *)

Module Sample.

Definition root : uuid := 10%N.
Definition alice : uuid := 20%N.
Definition bob : uuid := 30%N.
Definition public_org : uuid := 1%N.
Definition acme : uuid := 2%N.

Definition day : Z := interval_days 1.

Definition as_root (t : timestamptz) : session := Session (Some root) t.
Definition as_alice (t : timestamptz) : session := Session (Some alice) t.
Definition signup_at (t : timestamptz) : session := Session None t.

Definition base : db :=
  {| organizations :=
       [ Organization public_org "Public Organization" true;
         Organization acme "Acme" false ];
     organization_members :=
       [ Member public_org root super_admin; Member public_org alice viewer ];
     invitations := [];
     profiles :=
       [ Profile root "root@x.com" (Some "root");
         Profile alice "alice@x.com" (Some "alice") ] |}.

Definition with_invites (l : list invitation) : db := with_invitations base l.

(** An invitation for [old@x.com], created at time 0, that expired after
    five days. *)
Definition stale : invitation :=
{| i_id := 100%N; i_email := "old@x.com"; i_token := "tok-old";
   i_role := admin; i_org_id := Some acme; i_invited_by := Some root;
   i_expires_at := 5 * day; i_used_at := None; i_created_at := 0 |}.

(** An invitation that was redeemed on its second day. *)
Definition redeemed : invitation :=
{| i_id := 101%N; i_email := "used@x.com"; i_token := "tok-used";
   i_role := viewer; i_org_id := Some acme; i_invited_by := Some root;
   i_expires_at := 7 * day; i_used_at := Some (2 * day); i_created_at := 0 |}.

(** Two offers to [dup@x.com], made on day 1 and on day 2, each valid for
    seven days. *)
Definition offer1 : invitation :=
{| i_id := 102%N; i_email := "dup@x.com"; i_token := "tok-1";
   i_role := viewer; i_org_id := Some acme; i_invited_by := Some root;
   i_expires_at := 8 * day; i_used_at := None; i_created_at := 1 * day |}.

Definition offer2 : invitation :=
{| i_id := 103%N; i_email := "dup@x.com"; i_token := "tok-2";
   i_role := admin; i_org_id := Some acme; i_invited_by := Some root;
   i_expires_at := 9 * day; i_used_at := None; i_created_at := 2 * day |}.

(** The bootstrap invitation of the migration: no organization, no
    inviter, valid for 365 days. *)
Definition bootstrap : invitation :=
{| i_id := 1000%N; i_email := "eduardo.ferro.aldama@gmail.com";
   i_token := "admin-bootstrap-token"; i_role := super_admin;
   i_org_id := None; i_invited_by := None;
   i_expires_at := 365 * day; i_used_at := None; i_created_at := 0 |}.

(** An invitation made with the defaults of [create_user_invitation]:
    role viewer and no organization. *)
Definition open_offer : invitation :=
{| i_id := 104%N; i_email := "guest@x.com"; i_token := "tok-3";
   i_role := viewer; i_org_id := None; i_invited_by := Some root;
   i_expires_at := 8 * day; i_used_at := None; i_created_at := 1 * day |}.

(** The database right after the migrations: the public organization and
    the bootstrap invitation. *)
Definition fresh_install : db :=
{| organizations := [Organization public_org "Public Organization" true];
   organization_members := [];
   invitations := [bootstrap];
   profiles := [] |}.

(** A deployment whose only organization is private. *)
Definition no_public : db :=
{| organizations := [Organization acme "Acme" false];
   organization_members := [Member acme root super_admin];
   invitations := [redeemed];
   profiles := [Profile root "root@x.com" (Some "root")] |}.

Definition founder : auth_user :=
  AuthUser 40%N "eduardo.ferro.aldama@gmail.com" None.
Definition dup : auth_user := AuthUser bob "dup@x.com" None.
Definition guest : auth_user := AuthUser bob "guest@x.com" None.
Definition late : auth_user := AuthUser bob "used@x.com" None.

End Sample.

(** ** Further functions of the migrations *)

(** [handle_new_user()], the signup trigger of the initial schema
    migration, which the super-admin migration replaces by
    [handle_invitation_signup]. *)
Definition handle_new_user (NEW : auth_user) : plpgsql auth_user :=
  public_org_id ← query select_public_org;
  insert_profile (new_profile NEW);;
  match public_org_id with
  | Some o =>
      insert_organization_member
        {| m_org_id := o; m_user_id := u_id NEW; m_role := viewer |}
  | None => mret ()
  end;;
  mret NEW.

Definition bootstrap_email : string := "eduardo.ferro.aldama@gmail.com".
Definition bootstrap_token : string := "admin-bootstrap-token".

(** The row of the bootstrap [INSERT]s: [org_id], [invited_by] and
    [used_at] take their null defaults, [created_at] is [now()]. *)
Definition bootstrap_row (t : timestamptz) (valid_days : Z) (new_id : uuid)
    : invitation :=
  {| i_id := new_id; i_email := bootstrap_email; i_token := bootstrap_token;
     i_role := super_admin; i_org_id := None; i_invited_by := None;
     i_expires_at := t + interval_days valid_days; i_used_at := None;
     i_created_at := t |}.

(** Step 10 of the super-admin migration:
    [INSERT ... ON CONFLICT (token) DO UPDATE SET expires_at = now() +
    interval '365 days'], run at time [t]. *)
Definition ensure_bootstrap_invitation (t : timestamptz) (new_id : uuid)
    : plpgsql () :=
  Plpgsql (λ d,
    if decide (bootstrap_token ∈ i_token <$> invitations d)
    then Done () (with_invitations d
                    (update_rows (set_expires_at (t + interval_days 365))
                       (λ i, i_token i = bootstrap_token) (invitations d)))
    else run (insert_invitation (bootstrap_row t 365 new_id)) d).

(** The earlier bootstrap statement: the same row with one day of
    validity, [ON CONFLICT DO NOTHING]. *)
Definition bypass_invitation (t : timestamptz) (new_id : uuid) : plpgsql () :=
  Plpgsql (λ d,
    if decide (new_id ∈ i_id <$> invitations d
               ∨ bootstrap_token ∈ i_token <$> invitations d)
    then Done () d
    else run (insert_invitation (bootstrap_row t 1 new_id)) d).

(** The result of [get_current_user_super_admin_status()]. *)
Record super_admin_status : Type := SuperAdminStatus {
  s_is_super_admin : bool;
  s_user_id : option uuid;
  s_email : option string;
}.

(** [get_current_user_super_admin_status()]; [users] is the table
    [auth.users] of the identity provider. *)
Definition get_current_user_super_admin_status (cx : session)
    (users : list auth_user) (d : db) : super_admin_status :=
  {| s_is_super_admin := is_super_admin cx (auth_uid cx) d;
     s_user_id := auth_uid cx;
     s_email :=
       u_email <$> head (filter (λ u, Some (u_id u) = auth_uid cx) users) |}.

(** ** The language of a regular expression *)

Inductive lang : Text.regex → string → Prop :=
| lang_eps : lang Text.re_eps ""
| lang_class (p : ascii → bool) (c : ascii) :
    p c = true → lang (Text.re_class p) (String c "")
| lang_cat (r1 r2 : Text.regex) (s1 s2 : string) :
    lang r1 s1 → lang r2 s2 → lang (Text.re_cat r1 r2) (s1 +:+ s2)
| lang_alt_l (r1 r2 : Text.regex) (s : string) :
    lang r1 s → lang (Text.re_alt r1 r2) s
| lang_alt_r (r1 r2 : Text.regex) (s : string) :
    lang r2 s → lang (Text.re_alt r1 r2) s
| lang_star_nil (r : Text.regex) : lang (Text.re_star r) ""
| lang_star_cons (r : Text.regex) (s1 s2 : string) :
    lang r s1 → lang (Text.re_star r) s2 → lang (Text.re_star r) (s1 +:+ s2).

(** Every character of [s] is in the class [p]. *)
Fixpoint all_in (p : ascii → bool) (s : string) : bool :=
  match s with
  | EmptyString => true
  | String c s' => p c && all_in p s'
  end.

(** The shape the address pattern accepts: [local@domain.tld]. *)
Definition address_shape (s : string) : Prop :=
  ∃ loc dom tld,
    s = loc +:+ "@" +:+ dom +:+ "." +:+ tld
    ∧ loc ≠ "" ∧ all_in Text.local_class loc = true
    ∧ dom ≠ "" ∧ all_in Text.domain_class dom = true
    ∧ (2 ≤ String.length tld)%nat ∧ all_in Text.alpha_class tld = true.

(** The row [create_user_invitation] inserts. *)
Definition invitation_row (cx : session) (email : string) (role : org_role)
    (org : option uuid) (new_id : uuid) (token : string) : invitation :=
  {| i_id := new_id; i_email := Text.LOWER email; i_token := token;
     i_role := role; i_org_id := org; i_invited_by := auth_uid cx;
     i_expires_at := now cx + interval_days 7; i_used_at := None;
     i_created_at := now cx |}.

(** A computation grants no super-admin role: every super_admin
    membership in the database it commits was there before. *)
Definition grants_no_super_admin {A : Type} (m : plpgsql A) : Prop :=
  ∀ d x, x ∈ organization_members (commit m d) → m_role x = super_admin →
         x ∈ organization_members d.

(** ** [get_all_users_with_roles()] *)

(** One element of the [organizations] array of a result row. *)
Record org_entry : Type := OrgEntry {
  e_org_id : uuid;
  e_org_name : string;
  e_role : org_role;
  e_is_public : bool;
}.

Record user_with_roles : Type := UserWithRoles {
  ur_user_id : uuid;
  ur_email : string;
  ur_display_name : option string;
  ur_organizations : list org_entry;
}.

Global Instance org_entry_eq_dec : EqDecision org_entry.
Proof. solve_decision. Defined.
Global Instance user_with_roles_eq_dec : EqDecision user_with_roles.
Proof. solve_decision. Defined.

(** [profiles p LEFT JOIN organization_members om ON p.id = om.user_id],
    for one profile. *)
Definition join_members (d : db) (p : profile)
    : list (profile * option organization_member) :=
  match filter (λ m, p_id p = m_user_id m) (organization_members d) with
  | [] => [(p, None)]
  | ms => (λ m, (p, Some m)) <$> ms
  end.

(** [... LEFT JOIN organizations o ON om.org_id = o.id], for one joined
    row; a null [om.org_id] matches nothing. *)
Definition join_member_orgs (d : db) (pm : profile * option organization_member)
    : list (profile * option organization_member * option organization) :=
  match pm.2 with
  | None => [(pm, None)]
  | Some m =>
      match filter (λ o, m_org_id m = o_id o) (organizations d) with
      | [] => [(pm, None)]
      | os => (λ o, (pm, Some o)) <$> os
      end
  end.

(** The aggregated object of one joined row, under
    [FILTER (WHERE o.id IS NOT NULL)]. *)
Definition org_entry_of
    (row : profile * option organization_member * option organization)
    : option org_entry :=
  match row with
  | ((_, Some m), Some o) =>
      Some (OrgEntry (o_id o) (o_name o) (m_role m) (o_is_public o))
  | _ => None
  end.

(** [ORDER BY p.email]: the order of the database collation on text is a
    parameter. *)
Definition by_email (email_le : relation string) : relation user_with_roles :=
  λ a b, email_le (ur_email a) (ur_email b).

Global Instance by_email_dec (email_le : relation string)
    `{!RelDecision email_le} : RelDecision (by_email email_le).
Proof. intros a b. unfold by_email. apply _. Defined.

(** [get_all_users_with_roles()]: the joined rows that pass the [WHERE]
    clause are grouped by [(p.id, p.email, p.display_name)], that is by
    profile row, and each group aggregates its organizations;
    [COALESCE(..., '[]')] makes the empty aggregate an empty array. *)
Definition get_all_users_with_roles (email_le : relation string)
    `{!RelDecision email_le} (cx : session) (d : db) : list user_with_roles :=
  let rows :=
    filter (λ _, is_super_admin cx (auth_uid cx) d = true)
      ((profiles d ≫= join_members d) ≫= join_member_orgs d) in
  merge_sort (by_email email_le)
    ((λ p, {| ur_user_id := p_id p;
              ur_email := p_email p;
              ur_display_name := p_display_name p;
              ur_organizations :=
                omap org_entry_of (filter (λ row, row.1.1 = p) rows) |})
       <$> remove_dups ((λ row, row.1.1) <$> rows)).

(** The organizations of a user: the memberships joined with their
    organizations. *)
Definition roles_of (d : db) (u : uuid) : list org_entry :=
  filter (λ m, u = m_user_id m) (organization_members d) ≫= λ m,
    (λ o, OrgEntry (o_id o) (o_name o) (m_role m) (o_is_public o))
      <$> filter (λ o, m_org_id m = o_id o) (organizations d).

Definition user_row (d : db) (p : profile) : user_with_roles :=
  {| ur_user_id := p_id p; ur_email := p_email p;
     ur_display_name := p_display_name p;
     ur_organizations := roles_of d (p_id p) |}.

(** ** Row-level policies

    The policy expressions of the super-admin migration and, for reading
    prompts, of the initial schema migration.  [auth.uid()] may be null,
    and then [get_user_org_role] and [user_is_org_member] find no row. *)

Record prompt : Type := Prompt {
  pr_id : uuid;
  pr_org_id : uuid;
  pr_creator_id : uuid;
}.

(** [get_user_org_role(auth.uid(), org)] *)
Definition caller_org_role (cx : session) (d : db) (org : uuid) : option org_role :=
  auth_uid cx ≫= λ u, get_user_org_role d u org.

(** [user_is_org_member(auth.uid(), org)] *)
Definition caller_is_org_member (cx : session) (d : db) (org : uuid) : bool :=
  match auth_uid cx with
  | Some u => user_is_org_member d u org
  | None => false
  end.

(** [role IN ('admin', 'owner')]; false on null. *)
Definition admin_or_owner (r : option org_role) : bool :=
  match r with
  | Some admin | Some owner => true
  | _ => false
  end.

(** "Only super admin can create organizations" *)
Definition organizations_insert_policy (cx : session) (d : db) : bool :=
  is_super_admin cx (auth_uid cx) d.

(** "Super admin and owners can update organizations" *)
Definition organizations_update_policy (cx : session) (d : db) (o : organization)
    : bool :=
  is_super_admin cx (auth_uid cx) d
  || bool_decide (caller_org_role cx d (o_id o) = Some owner).

(** "Users can view orgs they belong to or super admin can view all" *)
Definition organizations_select_policy (cx : session) (d : db) (o : organization)
    : bool :=
  is_super_admin cx (auth_uid cx) d
  || caller_is_org_member cx d (o_id o)
  || o_is_public o.

(** "Super admin and owners can manage members" *)
Definition members_manage_policy (cx : session) (d : db) (m : organization_member)
    : bool :=
  is_super_admin cx (auth_uid cx) d
  || bool_decide (caller_org_role cx d (m_org_id m) = Some owner).

(** "Users can view prompts in orgs they belong to" *)
Definition prompts_select_policy (cx : session) (d : db) (p : prompt) : bool :=
  caller_is_org_member cx d (pr_org_id p).

(** "Super admin, admins and owners can create prompts" *)
Definition prompts_insert_policy (cx : session) (d : db) (p : prompt) : bool :=
  bool_decide (auth_uid cx = Some (pr_creator_id p))
  && (is_super_admin cx (auth_uid cx) d
      || admin_or_owner (caller_org_role cx d (pr_org_id p))).

(** "Super admin, admins and owners can update prompts"; the policy for
    [DELETE] has the same expression. *)
Definition prompts_update_policy (cx : session) (d : db) (p : prompt) : bool :=
  is_super_admin cx (auth_uid cx) d
  || admin_or_owner (caller_org_role cx d (pr_org_id p)).

(** * Properties *)

(** ** The super-admin gate *)

Section Gate.
Variable cx : session.
Variable d : db.

Lemma allowed_has_uid :
  is_super_admin cx (auth_uid cx) d = true → is_Some (auth_uid cx).
Proof.
  unfold is_super_admin. destruct (auth_uid cx) as [u|]; simpl; [eauto|done].
Qed.

Hypothesis denied : is_super_admin cx (auth_uid cx) d = false.

Lemma create_user_invitation_denied email role org new_id token :
  run (create_user_invitation cx email role org new_id token) d
  = Abort (raise_exception "Only super admin can create invitations").
Proof. unfold create_user_invitation. simpl. by rewrite denied. Qed.

Lemma revoke_invitation_denied invitation_id :
  run (revoke_invitation cx invitation_id) d
  = Abort (raise_exception "Only super admin can revoke invitations").
Proof. unfold revoke_invitation. simpl. by rewrite denied. Qed.

Lemma promote_user_to_owner_denied u o :
  run (promote_user_to_owner cx u o) d
  = Abort (raise_exception "Only super admin can promote users").
Proof. unfold promote_user_to_owner. simpl. by rewrite denied. Qed.

Lemma create_organization_denied name is_public new_id :
  run (create_organization_as_super_admin cx name is_public new_id) d
  = Abort (raise_exception "Only super admin can create organizations directly").
Proof. unfold create_organization_as_super_admin. simpl. by rewrite denied. Qed.
End Gate.

Lemma run_bind {A B : Type} (m : plpgsql A) (k : A → plpgsql B) (d : db) :
  run (m ≫= k) d
  = match run m d with
    | Done a d' => run (k a) d'
    | Abort e => Abort e
    end.
Proof. reflexivity. Qed.

Lemma commit_abort {A : Type} (m : plpgsql A) (d : db) (e : sqlerr) :
  run m d = Abort e → commit m d = d.
Proof. unfold commit. by intros ->. Qed.

Lemma commit_done {A : Type} (m : plpgsql A) (d d' : db) (a : A) :
  run m d = Done a d' → commit m d = d'.
Proof. unfold commit. by intros ->. Qed.

Lemma refused_intro {A : Type} (m : plpgsql A) (d : db) (what : string) :
  run m d = Abort (raise_exception ("Only super admin can " +:+ what)) →
  refused m d.
Proof.
  intros Hrun. split; [|by eapply commit_abort].
  eexists. split; [exact Hrun|]. by exists what.
Qed.

(** C2.  A caller who is not a super-admin gets [PermissionDenied] from
    [createOrganization], [createInvitation], [revokeInvitation] and
    [promoteUserToOwner], whatever the arguments, and the database the call
    commits is the one it started from: the gate is the first statement of
    each function, before any insert or update. *)
Theorem non_super_admin_is_refused (cx : session) (d : db) :
  is_super_admin cx (auth_uid cx) d = false →
  (∀ name is_public new_id,
     refused (create_organization_as_super_admin cx name is_public new_id) d)
  ∧ (∀ email role org new_id token,
       refused (create_user_invitation cx email role org new_id token) d)
  ∧ (∀ invitation_id, refused (revoke_invitation cx invitation_id) d)
  ∧ (∀ u o, refused (promote_user_to_owner cx u o) d).
Proof.
  intros Hden. split; [|split; [|split]]; intros.
  - apply (refused_intro _ _ "create organizations directly").
    by apply create_organization_denied.
  - apply (refused_intro _ _ "create invitations").
    by apply create_user_invitation_denied.
  - apply (refused_intro _ _ "revoke invitations").
    by apply revoke_invitation_denied.
  - apply (refused_intro _ _ "promote users").
    by apply promote_user_to_owner_denied.
Qed.

(** C2 at the sample deployment: [alice] is a viewer. *)
Lemma non_super_admin_is_refused_witness :
  is_super_admin (Sample.as_alice 0) (Some Sample.alice) Sample.base = false
  ∧ refused (revoke_invitation (Sample.as_alice 0) 7%N) Sample.base.
Proof.
  split; [reflexivity|].
  apply (non_super_admin_is_refused (Sample.as_alice 0) Sample.base).
  reflexivity.
Defined.

(** ** Revoking an invitation *)

Section Updates.
Context {A : Type} (set : A → A) (cond : A → Prop) `{∀ x, Decision (cond x)}.

Lemma update_rows_elem (l : list A) (y : A) :
  y ∈ update_rows set cond l
  ↔ ∃ x, x ∈ l ∧ y = (if decide (cond x) then set x else x).
Proof.
  unfold update_rows. rewrite list_elem_of_fmap.
  split; intros (x & H1 & H2); exists x; by split.
Qed.

Lemma update_rows_hit (l : list A) (x : A) :
  x ∈ l → cond x → set x ∈ update_rows set cond l.
Proof.
  intros Hx Hc. apply update_rows_elem. exists x. by rewrite decide_True.
Qed.

Lemma update_rows_miss (l : list A) (x : A) :
  x ∈ l → ¬ cond x → x ∈ update_rows set cond l.
Proof.
  intros Hx Hc. apply update_rows_elem. exists x. by rewrite decide_False.
Qed.

Lemma update_rows_none (l : list A) :
  (∀ x, x ∈ l → ¬ cond x) → update_rows set cond l = l.
Proof.
  unfold update_rows. induction l as [|x l IH]; intros Hno; [done|].
  simpl. rewrite decide_False by (apply Hno; left).
  f_equal. apply IH. intros y Hy. apply Hno. by right.
Qed.

Lemma found_rows_true (l : list A) (x : A) :
  x ∈ l → cond x → found_rows cond l = true.
Proof.
  intros Hx Hc. apply bool_decide_eq_true. apply Exists_exists. eauto.
Qed.

Lemma found_rows_false (l : list A) :
  (∀ x, x ∈ l → ¬ cond x) → found_rows cond l = false.
Proof.
  intros Hno. apply bool_decide_eq_false. rewrite Exists_exists.
  intros (x & Hx & Hc). by apply (Hno x).
Qed.
End Updates.

Lemma with_invitations_same (d : db) : with_invitations d (invitations d) = d.
Proof. by destruct d. Qed.

Lemma revoke_invitation_allowed (cx : session) (d : db) (invitation_id : uuid) :
  is_super_admin cx (auth_uid cx) d = true →
  run (revoke_invitation cx invitation_id) d
  = Done (found_rows (λ i, i_id i = invitation_id) (invitations d))
      (with_invitations d
         (update_rows (set_expires_at (now cx - interval_days 1))
            (λ i, i_id i = invitation_id) (invitations d))).
Proof. intros Hsa. unfold revoke_invitation. simpl. by rewrite Hsa. Qed.

(** Revoking an id that no invitation carries returns false and changes
    nothing. *)
Lemma revoke_invitation_absent (cx : session) (d : db) (invitation_id : uuid) :
  is_super_admin cx (auth_uid cx) d = true →
  invitation_id ∉ i_id <$> invitations d →
  run (revoke_invitation cx invitation_id) d = Done false d.
Proof.
  intros Hsa Hno. rewrite revoke_invitation_allowed by done.
  assert (∀ i, i ∈ invitations d → ¬ i_id i = invitation_id) as Hmiss.
  { intros i Hi <-. apply Hno. by apply list_elem_of_fmap_2. }
  rewrite found_rows_false, update_rows_none by done.
  by rewrite with_invitations_same.
Qed.

Lemma status_set_expires_at (cx : session) (i : invitation) (t : timestamptz) :
  t ≤ now cx → status cx i ≠ pending → status cx (set_expires_at t i) = status cx i.
Proof.
  unfold status. simpl. intros Ht. destruct (i_used_at i); [done|].
  intros Hnp. rewrite decide_False by lia. by case_decide.
Qed.

(** C1, as the specification states it, fails: revoking the expired sample
    invitation as super-admin returns true and moves its [expires_at] from
    day 5 to day 9. *)
Lemma revoke_expired_counterexample :
  let cx := Sample.as_root (10 * Sample.day) in
  let d := Sample.with_invites [Sample.stale] in
  is_super_admin cx (auth_uid cx) d = true
  ∧ Sample.stale ∈ invitations d
  ∧ status cx Sample.stale = expired
  ∧ run (revoke_invitation cx (i_id Sample.stale)) d
    = Done true
        (Sample.with_invites [set_expires_at (9 * Sample.day) Sample.stale])
  ∧ run (revoke_invitation cx (i_id Sample.stale)) d ≠ Done false d.
Proof.
  repeat split; [apply list_elem_of_here | vm_compute; congruence].
Qed.

(** C1, amended.  Revoking, as super-admin, an invitation that is already
    expired or already consumed returns true and overwrites its
    [expires_at] with [now() - 1 day].  Its other columns and its lifecycle
    state stay as they were, and so do all rows with another id and the
    other three tables. *)
Theorem revoke_invitation_terminal (cx : session) (d : db) (i : invitation) :
  is_super_admin cx (auth_uid cx) d = true →
  i ∈ invitations d →
  status cx i ≠ pending →
  ∃ d' i',
    run (revoke_invitation cx (i_id i)) d = Done true d'
    ∧ i' ∈ invitations d'
    ∧ i_expires_at i' = now cx - interval_days 1
    ∧ set_expires_at (i_expires_at i) i' = i
    ∧ status cx i' = status cx i
    ∧ (∀ j, j ∈ invitations d → i_id j ≠ i_id i → j ∈ invitations d')
    ∧ List.length (invitations d') = List.length (invitations d)
    ∧ organizations d' = organizations d
    ∧ organization_members d' = organization_members d
    ∧ profiles d' = profiles d.
Proof.
  intros Hsa Hi Hnp.
  eexists _, (set_expires_at (now cx - interval_days 1) i).
  rewrite revoke_invitation_allowed by done.
  rewrite (found_rows_true _ _ i) by done.
  split; [reflexivity|]. simpl.
  split; [by apply update_rows_hit|].
  split; [done|].
  split; [by destruct i|].
  split; [apply status_set_expires_at; [unfold interval_days; lia|done]|].
  split; [intros j Hj Hne; by apply update_rows_miss|].
  split; [unfold update_rows; by rewrite length_fmap|done].
Qed.

(** C1, amended, at the sample data: the expired and the redeemed sample
    invitations. *)
Lemma revoke_invitation_terminal_witness :
  let cx := Sample.as_root (10 * Sample.day) in
  let d := Sample.with_invites [Sample.stale; Sample.redeemed] in
  (is_super_admin cx (auth_uid cx) d = true
   ∧ Sample.redeemed ∈ invitations d
   ∧ status cx Sample.redeemed ≠ pending)
  ∧ ∃ d' i',
      run (revoke_invitation cx (i_id Sample.redeemed)) d = Done true d'
      ∧ i' ∈ invitations d'
      ∧ i_expires_at i' = now cx - interval_days 1
      ∧ set_expires_at (i_expires_at Sample.redeemed) i' = Sample.redeemed
      ∧ status cx i' = status cx Sample.redeemed
      ∧ (∀ j, j ∈ invitations d → i_id j ≠ i_id Sample.redeemed
              → j ∈ invitations d')
      ∧ List.length (invitations d') = List.length (invitations d)
      ∧ organizations d' = organizations d
      ∧ organization_members d' = organization_members d
      ∧ profiles d' = profiles d.
Proof.
  intros cx d.
  assert (Sample.redeemed ∈ invitations d) as Hin
    by (apply list_elem_of_further, list_elem_of_here).
  split; [by repeat split|].
  apply (revoke_invitation_terminal cx d Sample.redeemed); done.
Defined.

(** ** Promotion to owner *)

Lemma promote_user_to_owner_allowed (cx : session) (d : db) (u o : uuid) :
  is_super_admin cx (auth_uid cx) d = true →
  run (promote_user_to_owner cx u o) d
  = Done (found_rows (λ m, m_user_id m = u ∧ m_org_id m = o)
            (organization_members d))
      (with_organization_members d
         (update_rows (set_role owner) (λ m, m_user_id m = u ∧ m_org_id m = o)
            (organization_members d))).
Proof. intros Hsa. unfold promote_user_to_owner. simpl. by rewrite Hsa. Qed.

Lemma promoted_rows_are_owner (l : list organization_member) (u o : uuid)
    (m' : organization_member) :
  m' ∈ update_rows (set_role owner) (λ m, m_user_id m = u ∧ m_org_id m = o) l →
  m_user_id m' = u → m_org_id m' = o → m_role m' = owner.
Proof.
  intros (x & Hx & ->)%update_rows_elem. case_decide as Hc; [done|].
  intros. destruct Hc. by split.
Qed.

Lemma get_user_org_role_all (d : db) (u o : uuid) (r : org_role)
    (m : organization_member) :
  m ∈ organization_members d → m_user_id m = u → m_org_id m = o →
  (∀ m', m' ∈ organization_members d →
         m_user_id m' = u → m_org_id m' = o → m_role m' = r) →
  get_user_org_role d u o = Some r.
Proof.
  intros Hm Hu Ho Hall. unfold get_user_org_role.
  destruct (head _) as [x|] eqn:Hhead.
  - apply head_Some_elem_of, list_elem_of_filter in Hhead as [[? ?] ?].
    simpl. f_equal. by apply Hall.
  - apply head_None in Hhead. exfalso.
    by apply (filter_nil_not_elem_of _ _ m Hhead).
Qed.

(** C8.  For every membership row [(u, o)], whatever its role, a
    super-admin calling [promoteUserToOwner(u, o)] gets true and the row now
    carries role owner; rows of other (user, organization) pairs and the
    other tables are untouched.  A super_admin role is not preserved: if the
    promoted row was the only one that made [u] a super-admin, [u] is not a
    super-admin afterwards. *)
Theorem promote_user_to_owner_overwrites (cx : session) (d : db)
    (m : organization_member) :
  is_super_admin cx (auth_uid cx) d = true →
  m ∈ organization_members d →
  ∃ d',
    run (promote_user_to_owner cx (m_user_id m) (m_org_id m)) d = Done true d'
    ∧ set_role owner m ∈ organization_members d'
    ∧ (∀ m', m' ∈ organization_members d' →
             m_user_id m' = m_user_id m → m_org_id m' = m_org_id m →
             m_role m' = owner)
    ∧ get_user_org_role d' (m_user_id m) (m_org_id m) = Some owner
    ∧ (∀ m', m' ∈ organization_members d → member_key m' ≠ member_key m →
             m' ∈ organization_members d')
    ∧ organizations d' = organizations d
    ∧ invitations d' = invitations d
    ∧ profiles d' = profiles d
    ∧ ((∀ m', m' ∈ organization_members d → m_user_id m' = m_user_id m →
              m_role m' = super_admin → m_org_id m' = m_org_id m) →
       is_super_admin cx (Some (m_user_id m)) d' = false).
Proof.
  intros Hsa Hm. eexists.
  rewrite promote_user_to_owner_allowed by done.
  rewrite (found_rows_true _ _ m) by done.
  split; [reflexivity|]. simpl.
  assert (set_role owner m
          ∈ update_rows (set_role owner)
              (λ x, m_user_id x = m_user_id m ∧ m_org_id x = m_org_id m)
              (organization_members d)) as Hnew
    by (by apply update_rows_hit).
  split; [done|].
  split; [intros m'; apply promoted_rows_are_owner|].
  split.
  { eapply get_user_org_role_all; [exact Hnew|done|done|].
    intros m'. apply promoted_rows_are_owner. }
  split.
  { intros m' Hm' Hne. apply update_rows_miss; [done|].
    intros [Hu Ho]. apply Hne. unfold member_key. by rewrite Hu, Ho. }
  do 3 (split; [done|]).
  intros Hsole. apply bool_decide_eq_false. rewrite Exists_exists.
  intros (y & (x & Hx & ->)%update_rows_elem & Hu & Hr).
  case_decide as Hc; [done|].
  apply Hc. split; [done|]. by apply Hsole.
Qed.

(** C8 at the sample deployment: [root], the only super-admin, promotes
    their own membership of the public organization and loses the
    super-admin capability. *)
Lemma promote_user_to_owner_overwrites_witness :
  let cx := Sample.as_root 0 in
  let m := Member Sample.public_org Sample.root super_admin in
  (is_super_admin cx (auth_uid cx) Sample.base = true
   ∧ m ∈ organization_members Sample.base)
  ∧ ∃ d',
      run (promote_user_to_owner cx Sample.root Sample.public_org) Sample.base
      = Done true d'
      ∧ get_user_org_role d' Sample.root Sample.public_org = Some owner
      ∧ is_super_admin cx (Some Sample.root) d' = false.
Proof.
  intros cx m.
  assert (m ∈ organization_members Sample.base) as Hm by apply list_elem_of_here.
  split; [by split|].
  destruct (promote_user_to_owner_overwrites cx Sample.base m eq_refl Hm)
    as (d' & Hrun & _ & _ & Hrole & _ & _ & _ & _ & Hdemote).
  exists d'. split; [exact Hrun|]. split; [exact Hrole|].
  apply Hdemote. intros m' Hm' _ Hr.
  apply elem_of_cons in Hm' as [->|Hm']; [done|].
  apply list_elem_of_singleton in Hm' as ->. done.
Defined.

(** ** Creating an organization *)

Lemma sample_base_consistent : consistent Sample.base.
Proof. by apply (bool_decide_unpack _). Qed.

Lemma consistent_organizations_pkey (d : db) :
  consistent d → NoDup (o_id <$> organizations d).
Proof. by intros [? _]. Qed.

Lemma consistent_invitations_pkey (d : db) :
  consistent d → NoDup (i_id <$> invitations d).
Proof. by intros (_ & _ & _ & ? & _). Qed.

Lemma consistent_member_org (d : db) (m : organization_member) :
  consistent d → m ∈ organization_members d → org_exists d (m_org_id m).
Proof.
  intros (_ & _ & Hfk & _) Hm. by apply (proj1 (Forall_forall _ _) Hfk).
Qed.

Lemma create_organization_run (cx : session) (d : db) (name : string)
    (is_public : bool) (new_id caller : uuid) :
  is_super_admin cx (auth_uid cx) d = true →
  auth_uid cx = Some caller →
  ¬ org_exists d new_id →
  member_key (Member new_id caller owner) ∉ member_key <$> organization_members d →
  run (create_organization_as_super_admin cx name is_public new_id) d
  = Done new_id
      (Db (organizations d ++ [Organization new_id name is_public])
          (organization_members d ++ [Member new_id caller owner])
          (invitations d) (profiles d)).
Proof.
  intros Hsa Huid Hfresh Hkey.
  unfold create_organization_as_super_admin. simpl.
  rewrite Hsa, Huid. simpl.
  rewrite decide_False by done. simpl.
  rewrite decide_False by done.
  rewrite decide_True; [done|].
  unfold org_exists. simpl. rewrite fmap_app. apply elem_of_app. right.
  apply list_elem_of_here.
Qed.

(** C7.  [createOrganization] is all-or-nothing: the database it commits is
    either the one it started from, or that one with exactly the new
    organization row and the owner membership of the caller appended.  For a
    super-admin caller and an unused generated key it succeeds, returns the
    key, and afterwards [roleOf(caller, new organization)] is owner. *)
Theorem create_organization_atomic_owner (cx : session) (d : db)
    (name : string) (is_public : bool) (new_id : uuid) :
  let call := create_organization_as_super_admin cx name is_public new_id in
  (commit call d = d
   ∨ organization_created cx d name is_public new_id (commit call d))
  ∧ (is_super_admin cx (auth_uid cx) d = true →
     consistent d →
     ¬ org_exists d new_id →
     ∃ caller d',
       auth_uid cx = Some caller
       ∧ run call d = Done new_id d'
       ∧ organization_created cx d name is_public new_id d'
       ∧ Organization new_id name is_public ∈ organizations d'
       ∧ Member new_id caller owner ∈ organization_members d'
       ∧ get_user_org_role d' caller new_id = Some owner).
Proof.
  intros call. split.
  - unfold commit, call, create_organization_as_super_admin. simpl.
    destruct (is_super_admin cx (auth_uid cx) d); simpl; [|by left].
    case_decide; simpl; [by left|].
    destruct (auth_uid cx) as [caller|] eqn:Huid; simpl; [|by left].
    repeat (case_decide; simpl); try by left.
    right. exists caller. by rewrite Huid.
  - intros Hsa Hcons Hfresh.
    destruct (allowed_has_uid cx d Hsa) as [caller Huid].
    assert (∀ m, m ∈ organization_members d → m_org_id m ≠ new_id) as Hold.
    { intros m Hm <-. apply Hfresh. by apply consistent_member_org. }
    exists caller. eexists. split; [done|].
    unfold call. rewrite (create_organization_run cx d _ _ _ caller); try done.
    2:{ intros (m & Hk & Hm)%list_elem_of_fmap. apply (Hold m Hm).
        by injection Hk. }
    split; [reflexivity|].
    split; [by exists caller|]. simpl.
    assert (Member new_id caller owner
            ∈ organization_members d ++ [Member new_id caller owner]) as Hnew
      by (apply elem_of_app; right; apply list_elem_of_here).
    split; [apply elem_of_app; right; apply list_elem_of_here|].
    split; [done|].
    eapply get_user_org_role_all; [exact Hnew|done|done|].
    simpl. intros m' [Hm'|Hm']%elem_of_app Hu Ho.
    + by destruct (Hold m' Hm').
    + by apply list_elem_of_singleton in Hm' as ->.
Qed.

(** C7 at the sample deployment: [root] creates "Acme Labs" with the unused
    key 3. *)
Lemma create_organization_atomic_owner_witness :
  let cx := Sample.as_root 0 in
  (is_super_admin cx (auth_uid cx) Sample.base = true
   ∧ consistent Sample.base
   ∧ ¬ org_exists Sample.base 3%N)
  ∧ ∃ d',
      run (create_organization_as_super_admin cx "Acme Labs" false 3%N)
        Sample.base = Done 3%N d'
      ∧ Organization 3%N "Acme Labs" false ∈ organizations d'
      ∧ Member 3%N Sample.root owner ∈ organization_members d'
      ∧ get_user_org_role d' Sample.root 3%N = Some owner.
Proof.
  intros cx.
  assert (¬ org_exists Sample.base 3%N) as Hfresh
    by (by apply (bool_decide_unpack _)).
  split; [split; [done|split; [apply sample_base_consistent|done]]|].
  destruct (create_organization_atomic_owner cx Sample.base "Acme Labs" false 3%N)
    as [_ Hok].
  destruct (Hok eq_refl sample_base_consistent Hfresh)
    as (caller & d' & Huid & Hrun & _ & Horg & Hmem & Hrole).
  injection Huid as <-. by exists d'.
Defined.

(** ** Listing pending invitations *)

Lemma order_by_desc_perm {A : Type} (key : A → Z) (l : list A) :
  order_by_desc key l ≡ₚ l.
Proof. apply merge_sort_Permutation. Qed.

Lemma order_by_desc_sorted {A : Type} (key : A → Z) (l : list A) :
  StronglySorted (desc_by key) (order_by_desc key l).
Proof. apply (StronglySorted_merge_sort _). Qed.

Lemma filter_fmap_comm {A B : Type} (f : A → B) (P : B → Prop)
    `{∀ y, Decision (P y)} (l : list A) :
  filter P (f <$> l) = f <$> filter (λ x, P (f x)) l.
Proof.
  induction l as [|x l IH]; [done|]. csimpl.
  rewrite !filter_cons. case_decide; csimpl; by rewrite IH.
Qed.

Lemma NoDup_fmap_eq {A B : Type} (f : A → B) (l : list A) (x y : A) :
  NoDup (f <$> l) → x ∈ l → y ∈ l → f x = f y → x = y.
Proof.
  induction l as [|z l IH]; csimpl; [by intros _ ?%elem_of_nil|].
  intros [Hz Hnd]%NoDup_cons [->|Hx]%elem_of_cons [->|Hy]%elem_of_cons Heq;
    try done.
  - destruct Hz. rewrite Heq. by apply list_elem_of_fmap_2.
  - destruct Hz. rewrite <- Heq. by apply list_elem_of_fmap_2.
  - by apply IH.
Qed.

(** With a primary key on organizations, the join condition selects at
    most one organization. *)
Lemma filter_key_short (d : list organization) (k : option uuid) :
  NoDup (o_id <$> d) →
  filter (λ o, k = Some (o_id o)) d = option_list (head (filter (λ o, k = Some (o_id o)) d)).
Proof.
  induction d as [|o d IH]; [done|]. csimpl.
  intros [Ho Hnd]%NoDup_cons. rewrite !filter_cons.
  case_decide as Hk; [|by apply IH]. simpl. f_equal.
  destruct (filter _ d) as [|o' l] eqn:Hf; [done|].
  assert (o' ∈ filter (λ o, k = Some (o_id o)) d) as Ho'
    by (rewrite Hf; apply list_elem_of_here).
  apply list_elem_of_filter in Ho' as [Hk' Ho'].
  destruct Ho. rewrite Hk in Hk'. injection Hk' as ->.
  by apply list_elem_of_fmap_2.
Qed.

Lemma left_join_single (d : db) (i : invitation) :
  NoDup (o_id <$> organizations d) →
  left_join_organizations d i = [(i, org_of d i)].
Proof.
  intros Hnd. unfold left_join_organizations, org_of.
  rewrite (filter_key_short _ _ Hnd).
  by destruct (head _).
Qed.

Lemma join_all (d : db) (l : list invitation) :
  NoDup (o_id <$> organizations d) →
  l ≫= left_join_organizations d = (λ i, (i, org_of d i)) <$> l.
Proof.
  intros Hnd. induction l as [|i l IH]; [done|].
  rewrite bind_cons, IH, left_join_single by done. done.
Qed.

Lemma get_pending_invitations_perm (cx : session) (d : db) :
  is_super_admin cx (auth_uid cx) d = true →
  NoDup (o_id <$> organizations d) →
  get_pending_invitations cx d
  ≡ₚ listed d <$> filter (λ i, i_used_at i = None ∧ now cx < i_expires_at i)
                    (invitations d).
Proof.
  intros Hsa Hnd. unfold get_pending_invitations.
  rewrite order_by_desc_perm, join_all, filter_fmap_comm by done.
  rewrite <- list_fmap_compose. simpl.
  erewrite list_filter_iff; [done|]. simpl. intros i. rewrite Hsa. tauto.
Qed.

(** C6.  For a super-admin caller, [listPending] returns exactly the
    invitations with [used_at] null and [expires_at] strictly after
    [now()], one row each, ordered newest-first by [created_at]; no
    invitation with [expires_at <= now()] and no consumed invitation is
    listed. *)
Theorem get_pending_invitations_exact (cx : session) (d : db) :
  is_super_admin cx (auth_uid cx) d = true →
  consistent d →
  let rows := get_pending_invitations cx d in
  rows ≡ₚ listed d <$> filter (λ i, i_used_at i = None ∧ now cx < i_expires_at i)
                         (invitations d)
  ∧ StronglySorted (λ r1 r2, r_created_at r2 ≤ r_created_at r1) rows
  ∧ (∀ r, r ∈ rows → now cx < r_expires_at r)
  ∧ (∀ i, i ∈ invitations d →
          i_id i ∈ r_id <$> rows ↔ i_used_at i = None ∧ now cx < i_expires_at i)
  ∧ (∀ i, i ∈ invitations d → i_expires_at i ≤ now cx → i_id i ∉ r_id <$> rows).
Proof.
  intros Hsa Hcons rows.
  pose proof (consistent_organizations_pkey d Hcons) as Hopk.
  pose proof (consistent_invitations_pkey d Hcons) as Hipk.
  pose proof (get_pending_invitations_perm cx d Hsa Hopk) as Hperm.
  fold rows in Hperm.
  assert (∀ r, r ∈ rows ↔ ∃ i, r = listed d i ∧ i ∈ invitations d
                              ∧ i_used_at i = None ∧ now cx < i_expires_at i)
    as Hrows.
  { intros r. rewrite Hperm, list_elem_of_fmap.
    split; intros (i & Hr & Hi); exists i.
    - apply list_elem_of_filter in Hi. tauto.
    - split; [tauto|]. apply list_elem_of_filter. tauto. }
  assert (∀ i, i ∈ invitations d →
            i_id i ∈ r_id <$> rows
            ↔ i_used_at i = None ∧ now cx < i_expires_at i) as Hids.
  { intros i Hi. rewrite list_elem_of_fmap. split.
    - intros (r & Hid & (j & -> & Hj & Hp)%Hrows). simpl in Hid.
      by rewrite (NoDup_fmap_eq i_id (invitations d) i j Hipk Hi Hj Hid).
    - intros Hp. exists (listed d i). split; [done|]. apply Hrows. by exists i. }
  split; [done|]. split.
  { unfold rows, get_pending_invitations.
    eapply StronglySorted_fmap; [|apply order_by_desc_sorted]. done. }
  split; [by intros r (i & -> & _ & _ & Hexp)%Hrows|].
  split; [done|].
  intros i Hi Hexp [_ Hlt]%Hids; [lia|done].
Qed.

(** C6 at the sample data, on day 6: of an expired, a consumed and two
    pending invitations, the two pending ones are listed, newest first. *)
Lemma get_pending_invitations_exact_witness :
  let cx := Sample.as_root (6 * Sample.day) in
  let d := Sample.with_invites
             [Sample.stale; Sample.offer1; Sample.redeemed; Sample.offer2] in
  (is_super_admin cx (auth_uid cx) d = true ∧ consistent d)
  ∧ get_pending_invitations cx d
    = [listed d Sample.offer2; listed d Sample.offer1]
  ∧ (∀ r, r ∈ get_pending_invitations cx d → now cx < r_expires_at r)
  ∧ i_id Sample.stale ∉ r_id <$> get_pending_invitations cx d.
Proof.
  intros cx d.
  assert (consistent d) as Hcons by (by apply (bool_decide_unpack _)).
  split; [by split|]. split; [reflexivity|].
  destruct (get_pending_invitations_exact cx d eq_refl Hcons)
    as (_ & _ & Hfuture & _ & Hexpired).
  split; [exact Hfuture|].
  apply Hexpired; [apply list_elem_of_here|done].
Defined.

(** ** The signup trigger *)

Section Signup.
Variable cx : session.
Variable NEW : auth_user.

Lemma select_invitation_Some (d : db) (r : invitation) :
  select_invitation cx NEW d = Some r →
  r ∈ invitations d
  ∧ i_email r = u_email NEW
  ∧ i_used_at r = None
  ∧ now cx < i_expires_at r
  ∧ (∀ j, j ∈ invitations d → i_email j = u_email NEW → i_used_at j = None →
          now cx < i_expires_at j → i_created_at j ≤ i_created_at r).
Proof.
  unfold select_invitation. intros Hhead.
  pose proof (head_Some_elem_of _ _ Hhead) as Hr.
  rewrite order_by_desc_perm in Hr.
  apply list_elem_of_filter in Hr as [(He & Hu & Ht) Hr].
  do 4 (split; [done|]). intros j Hj Hje Hju Hjt.
  assert (j ∈ order_by_desc i_created_at
                (filter (λ i, i_email i = u_email NEW ∧ i_used_at i = None
                              ∧ now cx < i_expires_at i) (invitations d))) as Hin.
  { rewrite order_by_desc_perm. by apply list_elem_of_filter. }
  apply head_Some in Hhead as [l' Hl].
  pose proof (order_by_desc_sorted i_created_at
                (filter (λ i, i_email i = u_email NEW ∧ i_used_at i = None
                              ∧ now cx < i_expires_at i) (invitations d))) as Hs.
  rewrite Hl in Hs, Hin. apply StronglySorted_inv in Hs as [_ Hall].
  apply elem_of_cons in Hin as [->|Hin]; [done|].
  by apply (proj1 (Forall_forall _ _) Hall).
Qed.

Lemma select_invitation_None (d : db) :
  select_invitation cx NEW d = None
  ↔ ∀ i, i ∈ invitations d → i_email i = u_email NEW → status cx i ≠ pending.
Proof.
  unfold select_invitation. rewrite head_None. split.
  - intros Hnil i Hi He Hp.
    assert (i ∈ order_by_desc i_created_at
                  (filter (λ i, i_email i = u_email NEW ∧ i_used_at i = None
                                ∧ now cx < i_expires_at i) (invitations d))) as Hin.
    { rewrite order_by_desc_perm. apply list_elem_of_filter.
      unfold status in Hp. destruct (i_used_at i); [done|].
      by case_decide. }
    rewrite Hnil in Hin. by apply elem_of_nil in Hin.
  - intros Hno.
    destruct (order_by_desc _ _) as [|i l] eqn:Hl; [done|]. exfalso.
    assert (i ∈ order_by_desc i_created_at
                  (filter (λ i, i_email i = u_email NEW ∧ i_used_at i = None
                                ∧ now cx < i_expires_at i) (invitations d))) as Hin
      by (rewrite Hl; apply list_elem_of_here).
    rewrite order_by_desc_perm in Hin.
    apply list_elem_of_filter in Hin as [(He & Hu & Ht) Hi].
    apply (Hno i Hi He). unfold status. rewrite Hu. by rewrite decide_True.
Qed.

(** The selected row always has a null [used_at], so the row-wise
    [IS NOT NULL] test on the record is never true. *)
Lemma record_is_not_null_select (d : db) :
  record_is_not_null (select_invitation cx NEW d) = false.
Proof.
  destruct (select_invitation cx NEW d) as [r|] eqn:Hsel; [|done].
  apply select_invitation_Some in Hsel as (_ & _ & Hu & _).
  simpl. apply bool_decide_eq_false. rewrite Hu.
  intros (_ & _ & [? ?]). done.
Qed.

(** Every signup takes the [ELSE] arm. *)
Lemma handle_invitation_signup_regular (new_org_id : uuid) (d : db) :
  run (handle_invitation_signup cx NEW new_org_id) d
  = run (regular_signup NEW;; mret NEW) d.
Proof.
  unfold handle_invitation_signup. simpl.
  by rewrite record_is_not_null_select.
Qed.

Lemma select_public_org_Some (d : db) (o : uuid) :
  select_public_org d = Some o →
  ∃ org, org ∈ organizations d ∧ o_id org = o ∧ o_is_public org = true.
Proof.
  unfold select_public_org. destruct (head _) as [org|] eqn:Hhead; [|done].
  intros [= <-]. exists org.
  apply head_Some_elem_of, list_elem_of_filter in Hhead as [? ?]. done.
Qed.

Lemma select_public_org_None (d : db) :
  select_public_org d = None →
  ∀ org, org ∈ organizations d → o_is_public org = false.
Proof.
  unfold select_public_org. destruct (head _) as [org|] eqn:Hhead; [done|].
  intros _ org Horg. apply head_None in Hhead.
  destruct (o_is_public org) eqn:Hpub; [|done].
  by destruct (filter_nil_not_elem_of _ _ org Hhead).
Qed.

(** A regular signup of a new user succeeds: it adds the profile and, when
    a public organization exists, the viewer membership. *)
Lemma regular_signup_run (d : db) :
  new_user d (u_id NEW) →
  run (regular_signup NEW) d = Done () (after_regular_signup d NEW).
Proof.
  intros [Hprof Hmem]. unfold regular_signup, after_regular_signup,
    viewer_membership. simpl.
  rewrite decide_False by done. simpl.
  destruct (select_public_org d) as [o|] eqn:Hpub; simpl.
  - rewrite decide_False.
    2:{ intros (m & Hk & Hm)%list_elem_of_fmap. apply Hmem.
        injection Hk as _ ->. by apply list_elem_of_fmap_2. }
    rewrite decide_True; [done|].
    apply select_public_org_Some in Hpub as (org & Horg & <- & _).
    unfold org_exists. simpl. by apply list_elem_of_fmap_2.
  - by rewrite app_nil_r.
Qed.

Lemma handle_invitation_signup_run (new_org_id : uuid) (d : db) :
  new_user d (u_id NEW) →
  run (handle_invitation_signup cx NEW new_org_id) d
  = Done NEW (after_regular_signup d NEW).
Proof.
  intros Hnew. rewrite handle_invitation_signup_regular, run_bind.
  by rewrite regular_signup_run.
Qed.

(** No signup ever writes to [invitations]: whether the call commits or
    aborts, every invitation keeps its [used_at]. *)
Lemma handle_invitation_signup_invitations (new_org_id : uuid) (d : db) :
  invitations (commit (handle_invitation_signup cx NEW new_org_id) d)
  = invitations d.
Proof.
  unfold commit. rewrite handle_invitation_signup_regular.
  unfold regular_signup. simpl.
  case_decide; simpl; [done|].
  destruct (select_public_org d); simpl; [|done].
  repeat (case_decide; simpl); done.
Qed.
End Signup.

(** *** What the [THEN] arm does when it is entered *)

Section Invited.
Variable cx : session.
Variable NEW : auth_user.
Variable new_org_id : uuid.
Variable d : db.
Variable r : invitation.
Hypothesis fresh : new_user d (u_id NEW).

Local Abbreviation consumed_invitations :=
  (update_rows (set_used_at (now cx)) (λ i, i_id i = i_id r) (invitations d)).

Lemma member_key_fresh (o : uuid) (role : org_role) (l : list organization_member) :
  (∀ m, m ∈ l → m_user_id m ≠ u_id NEW) →
  member_key (Member o (u_id NEW) role) ∉ member_key <$> l.
Proof.
  intros Hl (m & Hk & Hm)%list_elem_of_fmap. apply (Hl m Hm).
  by injection Hk.
Qed.

Lemma fresh_members (m : organization_member) :
  m ∈ organization_members d → m_user_id m ≠ u_id NEW.
Proof.
  intros Hm Hu. destruct fresh as [_ Hno]. apply Hno. rewrite <- Hu.
  by apply list_elem_of_fmap_2.
Qed.

(** An invitation into an organization: consumed, profile, membership with
    the invited role. *)
Lemma invited_signup_org (o : uuid) :
  i_org_id r = Some o → org_exists d o →
  run (invited_signup cx NEW new_org_id r) d
  = Done () {| organizations := organizations d;
               organization_members :=
                 organization_members d ++ [Member o (u_id NEW) (i_role r)];
               invitations := consumed_invitations;
               profiles := profiles d ++ [new_profile NEW] |}.
Proof.
  intros Ho Hex. unfold invited_signup. simpl.
  destruct fresh as [Hprof _]. rewrite decide_False by done. simpl.
  rewrite Ho. simpl.
  rewrite decide_False by (apply member_key_fresh, fresh_members).
  by rewrite decide_True.
Qed.

(** A super_admin invitation without organization: membership in the
    public organization, which is created when missing. *)
Lemma invited_signup_super_admin :
  i_org_id r = None → i_role r = super_admin → ¬ org_exists d new_org_id →
  run (invited_signup cx NEW new_org_id r) d
  = Done () {| organizations :=
                 organizations d
                 ++ match select_public_org d with
                    | Some _ => []
                    | None => [Organization new_org_id "Public Organization" true]
                    end;
               organization_members :=
                 organization_members d
                 ++ [Member (default new_org_id (select_public_org d))
                       (u_id NEW) super_admin];
               invitations := consumed_invitations;
               profiles := profiles d ++ [new_profile NEW] |}.
Proof.
  intros Ho Hr Hnew. unfold invited_signup. simpl.
  destruct fresh as [Hprof _]. rewrite decide_False by done. simpl.
  rewrite Ho, decide_True by done. simpl.
  change (select_public_org (with_profiles _ _)) with (select_public_org d).
  destruct (select_public_org d) as [o|] eqn:Hpub; simpl.
  - rewrite decide_False by (apply member_key_fresh, fresh_members).
    rewrite decide_True, app_nil_r; [done|].
    apply select_public_org_Some in Hpub as (org & Horg & <- & _).
    by apply list_elem_of_fmap_2.
  - rewrite decide_False by done. simpl.
    rewrite decide_False by (apply member_key_fresh, fresh_members).
    rewrite decide_True; [done|].
    unfold org_exists. simpl. rewrite fmap_app, elem_of_app. right.
    apply list_elem_of_here.
Qed.

(** Any other invitation without organization: consumed and profile, but
    no membership. *)
Lemma invited_signup_no_org :
  i_org_id r = None → i_role r ≠ super_admin →
  run (invited_signup cx NEW new_org_id r) d
  = Done () {| organizations := organizations d;
               organization_members := organization_members d;
               invitations := consumed_invitations;
               profiles := profiles d ++ [new_profile NEW] |}.
Proof.
  intros Ho Hr. unfold invited_signup. simpl.
  destruct fresh as [Hprof _]. rewrite decide_False by done. simpl.
  by rewrite Ho, decide_False.
Qed.
End Invited.

(** *** Signup without a pending invitation *)

(** C4, as the specification states it, fails where no organization is
    public: the signup of [used@x.com], whose only invitation is consumed,
    creates the profile and no membership at all. *)
Lemma signup_without_public_org_counterexample :
  let cx := Sample.signup_at (3 * Sample.day) in
  let d := Sample.no_public in
  new_user d (u_id Sample.late)
  ∧ select_invitation cx Sample.late d = None
  ∧ run (handle_invitation_signup cx Sample.late 9%N) d
    = Done Sample.late
        (with_profiles d (profiles d ++ [new_profile Sample.late]))
  ∧ ¬ ∃ d' m,
        run (handle_invitation_signup cx Sample.late 9%N) d = Done Sample.late d'
        ∧ m ∈ organization_members d'
        ∧ m_user_id m = u_id Sample.late.
Proof.
  intros cx d.
  split; [by apply (bool_decide_unpack _)|].
  split; [reflexivity|]. split; [reflexivity|].
  intros (d' & m & Hrun & Hm & Hu).
  vm_compute in Hrun. injection Hrun as <-.
  apply list_elem_of_singleton in Hm as ->. done.
Qed.

(** C4, amended.  For every signup of a new user whose email has no pending
    invitation (expired and consumed ones included), the trigger creates
    the profile and, when a public organization exists, attaches the user
    to the first such organization with role viewer; when none exists it
    creates no membership.  Nothing else changes: no invitation is touched
    and the user's only membership is that viewer row, so a consumed
    invitation never yields a second membership. *)
Theorem signup_without_invitation (cx : session) (NEW : auth_user)
    (new_org_id : uuid) (d : db) :
  new_user d (u_id NEW) →
  (∀ i, i ∈ invitations d → i_email i = u_email NEW → status cx i ≠ pending) →
  ∃ d',
    run (handle_invitation_signup cx NEW new_org_id) d = Done NEW d'
    ∧ profiles d' = profiles d ++ [new_profile NEW]
    ∧ organizations d' = organizations d
    ∧ invitations d' = invitations d
    ∧ (∀ o, select_public_org d = Some o →
            organization_members d'
            = organization_members d ++ [Member o (u_id NEW) viewer]
            ∧ get_user_org_role d' (u_id NEW) o = Some viewer)
    ∧ (select_public_org d = None →
       organization_members d' = organization_members d)
    ∧ (∀ m, m ∈ organization_members d' → m_user_id m = u_id NEW →
            m_role m = viewer ∧ select_public_org d = Some (m_org_id m)).
Proof.
  intros Hnew _. exists (after_regular_signup d NEW).
  split; [by apply handle_invitation_signup_run|].
  do 3 (split; [done|]).
  assert (∀ m, m ∈ organization_members (after_regular_signup d NEW) →
               m_user_id m = u_id NEW →
               m_role m = viewer ∧ select_public_org d = Some (m_org_id m))
    as Honly.
  { simpl. unfold viewer_membership.
    intros m [Hm|Hm]%elem_of_app Hu.
    - by destruct (fresh_members NEW d Hnew m Hm).
    - destruct (select_public_org d); [|by apply elem_of_nil in Hm].
      by apply list_elem_of_singleton in Hm as ->. }
  split; [|split; [|done]].
  - intros o Ho. simpl. unfold viewer_membership. rewrite Ho.
    split; [done|].
    eapply (get_user_org_role_all _ _ _ _ (Member o (u_id NEW) viewer));
      [|done|done|].
    + simpl. unfold viewer_membership. rewrite Ho.
      apply elem_of_app. right. apply list_elem_of_here.
    + intros m' Hm' Hu _. by apply Honly.
  - intros Hnone. simpl. unfold viewer_membership.
    by rewrite Hnone, app_nil_r.
Qed.

(** C4, amended, at the sample deployment: [used@x.com] signs up after the
    invitation to that address was consumed, and becomes a viewer of the
    public organization. *)
Lemma signup_without_invitation_witness :
  let cx := Sample.signup_at (3 * Sample.day) in
  let d := Sample.with_invites [Sample.redeemed] in
  (new_user d (u_id Sample.late)
   ∧ ∀ i, i ∈ invitations d → i_email i = u_email Sample.late →
          status cx i ≠ pending)
  ∧ ∃ d',
      run (handle_invitation_signup cx Sample.late 9%N) d = Done Sample.late d'
      ∧ invitations d' = invitations d
      ∧ organization_members d'
        = organization_members d
          ++ [Member Sample.public_org (u_id Sample.late) viewer].
Proof.
  intros cx d.
  assert (new_user d (u_id Sample.late)) as Hnew
    by (by apply (bool_decide_unpack _)).
  assert (∀ i, i ∈ invitations d → i_email i = u_email Sample.late →
               status cx i ≠ pending) as Hnone.
  { intros i Hi _. by apply list_elem_of_singleton in Hi as ->. }
  split; [by split|].
  destruct (signup_without_invitation cx Sample.late 9%N d Hnew Hnone)
    as (d' & Hrun & _ & _ & Hinv & Hpub & _).
  exists d'. split; [exact Hrun|]. split; [exact Hinv|].
  by apply (Hpub Sample.public_org).
Defined.

(** *** Signup with a pending invitation *)

(** C3 on the code.  [dup@x.com] holds two pending offers, made on day 1
    (viewer of Acme) and on day 2 (admin of Acme), and signs up on day 3.
    The lookup selects the day-2 offer, but the guard
    [invitation_record IS NOT NULL] is false because the selected row has a
    null [used_at]: the [ELSE] arm runs.  Both offers stay pending and the
    user becomes a viewer of the public organization, with no role in
    Acme. *)
Theorem signup_leaves_newest_offer_pending :
  let cx := Sample.signup_at (3 * Sample.day) in
  let d := Sample.with_invites [Sample.offer1; Sample.offer2] in
  let d' := commit (handle_invitation_signup cx Sample.dup 9%N) d in
  (status cx Sample.offer1 = pending ∧ status cx Sample.offer2 = pending
   ∧ i_created_at Sample.offer1 < i_created_at Sample.offer2 < now cx)
  ∧ select_invitation cx Sample.dup d = Some Sample.offer2
  ∧ record_is_not_null (select_invitation cx Sample.dup d) = false
  ∧ run (handle_invitation_signup cx Sample.dup 9%N) d = Done Sample.dup d'
  ∧ invitations d' = [Sample.offer1; Sample.offer2]
  ∧ organization_members d'
    = organization_members d ++ [Member Sample.public_org Sample.bob viewer]
  ∧ get_user_org_role d' Sample.bob Sample.acme = None.
Proof. by vm_compute. Qed.

(** C5 on the code.  On a fresh installation the founder signs up with the
    bootstrap invitation (role super_admin, no organization) pending.  The
    guard is false, the [ELSE] arm runs: the invitation stays unconsumed
    and the founder is a viewer of the public organization, not a
    super-admin.  Without a public organization none is created and the
    founder gets no membership. *)
Theorem bootstrap_signup_is_viewer :
  let cx := Sample.signup_at (3 * Sample.day) in
  let d := Sample.fresh_install in
  let d' := commit (handle_invitation_signup cx Sample.founder 9%N) d in
  let e := with_organizations d [] in
  let e' := commit (handle_invitation_signup cx Sample.founder 9%N) e in
  (status cx Sample.bootstrap = pending
   ∧ select_invitation cx Sample.founder d = Some Sample.bootstrap)
  ∧ run (handle_invitation_signup cx Sample.founder 9%N) d = Done Sample.founder d'
  ∧ invitations d' = [Sample.bootstrap]
  ∧ organization_members d'
    = [Member Sample.public_org (u_id Sample.founder) viewer]
  ∧ is_super_admin cx (Some (u_id Sample.founder)) d' = false
  ∧ run (handle_invitation_signup cx Sample.founder 9%N) e = Done Sample.founder e'
  ∧ organizations e' = []
  ∧ organization_members e' = [].
Proof. by vm_compute. Qed.

(** C9 on the code.  [guest@x.com] holds a pending invitation with role
    viewer and no organization.  The guard is false, the [ELSE] arm runs:
    the invitation is not marked consumed, and the user does get a
    membership, as viewer of the public organization. *)
Theorem open_offer_signup_is_regular :
  let cx := Sample.signup_at (3 * Sample.day) in
  let d := Sample.with_invites [Sample.open_offer] in
  let d' := commit (handle_invitation_signup cx Sample.guest 9%N) d in
  (status cx Sample.open_offer = pending
   ∧ select_invitation cx Sample.guest d = Some Sample.open_offer
   ∧ i_org_id Sample.open_offer = None
   ∧ i_role Sample.open_offer ≠ super_admin)
  ∧ run (handle_invitation_signup cx Sample.guest 9%N) d = Done Sample.guest d'
  ∧ invitations d' = [Sample.open_offer]
  ∧ i_used_at Sample.open_offer = None
  ∧ organization_members d'
    = organization_members d ++ [Member Sample.public_org Sample.bob viewer].
Proof. by vm_compute. Qed.

(** ** Letter case of invited addresses *)

Lemma is_upper_lower_ascii (c : ascii) : Text.is_upper (Text.lower_ascii c) = false.
Proof. destruct c as [[] [] [] [] [] [] [] []]; by vm_compute. Qed.

Lemma has_upper_LOWER (s : string) : Text.has_upper (Text.LOWER s) = false.
Proof.
  induction s as [|c s IH]; [done|]. simpl.
  by rewrite is_upper_lower_ascii, IH.
Qed.

Lemma create_user_invitation_Done (cx : session) (d d' : db) (email : string)
    (role : org_role) (org : option uuid) (new_id id : uuid) (token : string) :
  run (create_user_invitation cx email role org new_id token) d = Done id d' →
  id = new_id
  ∧ is_super_admin cx (auth_uid cx) d = true
  ∧ Text.matches Text.email_format email = true
  ∧ (new_id ∉ i_id <$> invitations d)
  ∧ d' = with_invitations d
           (invitations d
            ++ [Invitation new_id (Text.LOWER email) token role org (auth_uid cx)
                  (now cx + interval_days 7) None (now cx)]).
Proof.
  unfold create_user_invitation. simpl.
  destruct (is_super_admin cx (auth_uid cx) d); simpl; [|done].
  destruct (Text.matches Text.email_format email); simpl; [|done].
  repeat (case_decide; simpl; try done).
  destruct (org_ref_ok d org); simpl; [|done].
  by intros [= <- <-].
Qed.

(** C10.  An invitation created by [createInvitation] stores
    [LOWER(p_email)], which has no upper-case letter, and the lookup of the
    signup trigger compares the stored address with the raw signup address
    by equality.  So the lookup returns that invitation only to a signup
    whose address is exactly the lower-cased invited address, and never to
    one that contains an upper-case letter. *)
Theorem invitation_matches_lowercase_only (cx : session) (d d' : db)
    (email : string) (role : org_role) (org : option uuid) (new_id : uuid)
    (token : string) :
  run (create_user_invitation cx email role org new_id token) d = Done new_id d' →
  ∃ i,
    invitations d' = invitations d ++ [i]
    ∧ i_id i = new_id
    ∧ i_email i = Text.LOWER email
    ∧ Text.has_upper (i_email i) = false
    ∧ (∀ cx' NEW, select_invitation cx' NEW d' = Some i →
                  u_email NEW = Text.LOWER email)
    ∧ (∀ cx' NEW, Text.has_upper (u_email NEW) = true →
                  select_invitation cx' NEW d' ≠ Some i)
    ∧ (∀ cx' NEW d'' r, select_invitation cx' NEW d'' = Some r →
                        i_email r = Text.LOWER email →
                        u_email NEW = Text.LOWER email).
Proof.
  intros (_ & _ & _ & _ & ->)%create_user_invitation_Done.
  eexists. split; [reflexivity|]. simpl.
  do 2 (split; [done|]). split; [apply has_upper_LOWER|].
  assert (∀ cx' NEW d'' r, select_invitation cx' NEW d'' = Some r →
            i_email r = Text.LOWER email → u_email NEW = Text.LOWER email)
    as Hexact.
  { intros cx' NEW d'' r (_ & He & _)%select_invitation_Some Hr. congruence. }
  split; [|split; [|done]].
  - intros cx' NEW Hsel. by eapply Hexact.
  - intros cx' NEW Hup Hsel. apply Hexact in Hsel; [|done].
    rewrite Hsel, has_upper_LOWER in Hup. done.
Qed.

(** C10 at the sample deployment: [root] invites [New@X.com]; the signup
    of [new@x.com] is matched with the invitation, the signup of
    [New@X.com] is not. *)
Lemma invitation_matches_lowercase_only_witness :
  let cx := Sample.as_root 0 in
  let d' := commit (create_user_invitation cx "New@X.com" admin
                      (Some Sample.acme) 105%N "tok-5") Sample.base in
  let i := Invitation 105%N "new@x.com" "tok-5" admin (Some Sample.acme)
             (Some Sample.root) (7 * Sample.day) None 0 in
  run (create_user_invitation cx "New@X.com" admin (Some Sample.acme)
         105%N "tok-5") Sample.base = Done 105%N d'
  ∧ select_invitation (Sample.signup_at Sample.day)
      (AuthUser Sample.bob "new@x.com" None) d' = Some i
  ∧ select_invitation (Sample.signup_at Sample.day)
      (AuthUser Sample.bob "New@X.com" None) d' ≠ Some i.
Proof.
  intros cx d' i.
  assert (run (create_user_invitation cx "New@X.com" admin (Some Sample.acme)
                 105%N "tok-5") Sample.base = Done 105%N d') as Hrun
    by reflexivity.
  split; [exact Hrun|]. split; [reflexivity|].
  destruct (invitation_matches_lowercase_only cx Sample.base d' "New@X.com"
              admin (Some Sample.acme) 105%N "tok-5" Hrun)
    as (j & Hj & _ & _ & _ & _ & Hnever & _).
  assert (j = i) as -> by (vm_compute in Hj; by injection Hj).
  by apply Hnever.
Defined.

(** ** The declared constraints are an invariant *)

Section Invariant.

Lemma preserves_ret {A : Type} (a : A) : preserves (mret a).
Proof. intros d a' d' Hc [= _ <-]. done. Qed.

Lemma preserves_query {A : Type} (q : db → A) : preserves (query q).
Proof. intros d a' d' Hc [= _ <-]. done. Qed.

Lemma preserves_RAISE {A : Type} (msg : string) : preserves (@RAISE A msg).
Proof. intros d a d' _ [=]. Qed.

Lemma preserves_bind {A B : Type} (m : plpgsql A) (k : A → plpgsql B) :
  preserves m → (∀ a, preserves (k a)) → preserves (m ≫= k).
Proof.
  intros Hm Hk d b d' Hc. rewrite run_bind.
  destruct (run m d) as [a d1|e] eqn:Hrun; [|done].
  intros Hrun'. eapply Hk; [|exact Hrun']. by eapply Hm.
Qed.

Lemma org_exists_grows (d : db) (l : list organization) (o : uuid) :
  org_exists d o → org_exists (with_organizations d (organizations d ++ l)) o.
Proof. unfold org_exists. simpl. rewrite fmap_app, elem_of_app. by left. Qed.

Lemma org_ref_ok_grows (d : db) (l : list organization) (o : option uuid) :
  org_ref_ok d o = true →
  org_ref_ok (with_organizations d (organizations d ++ l)) o = true.
Proof.
  destruct o as [o|]; [|done]. simpl.
  rewrite !bool_decide_eq_true. apply org_exists_grows.
Qed.

Lemma NoDup_snoc {A : Type} (l : list A) (x : A) :
  NoDup l → x ∉ l → NoDup (l ++ [x]).
Proof.
  intros Hl Hx. apply NoDup_app. split; [done|]. split.
  - intros y Hy ->%list_elem_of_singleton. done.
  - apply NoDup_singleton.
Qed.

Lemma preserves_insert_organization (o : organization) :
  preserves (insert_organization o).
Proof.
  intros d a d' (Ho & Hk & Hmf & Hi & Ht & Hif & Hp). unfold insert_organization.
  simpl. case_decide as Hex; [done|]. intros [= Hd]; subst d'.
  repeat split; simpl; try done.
  - rewrite fmap_app. by apply NoDup_snoc.
  - eapply Forall_impl; [exact Hmf|]. intros m. apply org_exists_grows.
  - eapply Forall_impl; [exact Hif|]. intros i. apply org_ref_ok_grows.
Qed.

Lemma preserves_insert_organization_member (m : organization_member) :
  preserves (insert_organization_member m).
Proof.
  intros d a d' (Ho & Hk & Hmf & Hi & Ht & Hif & Hp).
  unfold insert_organization_member. simpl.
  case_decide as Hkey; [done|]. case_decide as Hex; [|done]. intros [= Hd]; subst d'.
  repeat split; simpl; try done.
  - rewrite fmap_app. by apply NoDup_snoc.
  - apply Forall_app. split; [done|]. by apply Forall_singleton.
Qed.

Lemma preserves_insert_invitation (i : invitation) :
  preserves (insert_invitation i).
Proof.
  intros d a d' (Ho & Hk & Hmf & Hi & Ht & Hif & Hp).
  unfold insert_invitation. simpl.
  case_decide as Hid; [done|]. case_decide as Htok; [done|].
  destruct (org_ref_ok d (i_org_id i)) eqn:Hfk; [|done]. intros [= Hd]; subst d'.
  repeat split; simpl; try done.
  - rewrite fmap_app. by apply NoDup_snoc.
  - rewrite fmap_app. by apply NoDup_snoc.
  - apply Forall_app. split; [done|]. by apply Forall_singleton.
Qed.

Lemma preserves_insert_profile (p : profile) : preserves (insert_profile p).
Proof.
  intros d a d' (Ho & Hk & Hmf & Hi & Ht & Hif & Hp).
  unfold insert_profile. simpl.
  case_decide as Hid; [done|]. intros [= Hd]; subst d'.
  repeat split; simpl; try done.
  rewrite fmap_app. by apply NoDup_snoc.
Qed.

Lemma fmap_update_rows {A B : Type} (f : A → B) (set : A → A) (cond : A → Prop)
    `{∀ x, Decision (cond x)} (l : list A) :
  (∀ x, f (set x) = f x) → f <$> update_rows set cond l = f <$> l.
Proof.
  intros Hf. unfold update_rows. rewrite <- list_fmap_compose.
  apply list_fmap_ext. intros _ x _. simpl. by case_decide.
Qed.

Lemma Forall_update_rows {A : Type} (P : A → Prop) (set : A → A)
    (cond : A → Prop) `{∀ x, Decision (cond x)} (l : list A) :
  (∀ x, P x → P (set x)) → Forall P l → Forall P (update_rows set cond l).
Proof.
  intros Hset Hl. unfold update_rows. apply Forall_fmap.
  eapply Forall_impl; [exact Hl|]. intros x Hx. simpl. case_decide; auto.
Qed.

Lemma preserves_update_invitations (set : invitation → invitation)
    (cond : invitation → Prop) `{∀ x, Decision (cond x)} :
  (∀ i, i_id (set i) = i_id i) →
  (∀ i, i_token (set i) = i_token i) →
  (∀ i, i_org_id (set i) = i_org_id i) →
  preserves (update_invitations set cond).
Proof.
  intros Hid Htok Horg d a d' (Ho & Hk & Hmf & Hi & Ht & Hif & Hp) [= _ Hd];
    subst d'.
  repeat split; simpl; try done.
  - by rewrite fmap_update_rows.
  - by rewrite fmap_update_rows.
  - apply Forall_update_rows; [|done]. intros i. by rewrite Horg.
Qed.

Lemma preserves_update_organization_members
    (set : organization_member → organization_member)
    (cond : organization_member → Prop) `{∀ x, Decision (cond x)} :
  (∀ m, member_key (set m) = member_key m) →
  preserves (update_organization_members set cond).
Proof.
  intros Hkey d a d' (Ho & Hk & Hmf & Hi & Ht & Hif & Hp) [= _ Hd];
    subst d'.
  repeat split; simpl; try done.
  - by rewrite fmap_update_rows.
  - apply Forall_update_rows; [|done]. intros m.
    pose proof (Hkey m) as [= -> _]. done.
Qed.

Create HintDb preserve.

Local Hint Resolve preserves_ret preserves_query preserves_RAISE
  preserves_insert_organization preserves_insert_organization_member
  preserves_insert_invitation preserves_insert_profile : preserve.

Local Ltac preserve :=
  repeat first
    [ apply preserves_bind; [|intros ?]
    | apply preserves_update_invitations; done
    | apply preserves_update_organization_members; done
    | match goal with
      | |- preserves (if ?b then _ else _) => destruct b
      | |- preserves (match ?o with Some _ => _ | None => _ end) => destruct o
      end
    | solve [auto with preserve]
    | intros ? ? ? ? [=] ].

Lemma preserves_create_user_invitation cx email role org new_id token :
  preserves (create_user_invitation cx email role org new_id token).
Proof. unfold create_user_invitation, caller_is_super_admin. preserve. Qed.

Lemma preserves_revoke_invitation cx invitation_id :
  preserves (revoke_invitation cx invitation_id).
Proof. unfold revoke_invitation, caller_is_super_admin. preserve. Qed.

Lemma preserves_promote_user_to_owner cx u o :
  preserves (promote_user_to_owner cx u o).
Proof. unfold promote_user_to_owner, caller_is_super_admin. preserve. Qed.

Lemma preserves_create_organization cx name is_public new_id :
  preserves (create_organization_as_super_admin cx name is_public new_id).
Proof. unfold create_organization_as_super_admin, caller_is_super_admin. preserve. Qed.

Lemma preserves_handle_invitation_signup cx NEW new_org_id :
  preserves (handle_invitation_signup cx NEW new_org_id).
Proof.
  unfold handle_invitation_signup, invited_signup, regular_signup. preserve.
Qed.

End Invariant.

(** * Further properties *)

(** ** The address pattern *)

Section Regex.
Import Text.

Lemma append_empty (s1 s2 : string) : s1 +:+ s2 = "" → s1 = "" ∧ s2 = "".
Proof. by destruct s1. Qed.

Lemma append_nil_l (s : string) : "" +:+ s = s.
Proof. reflexivity. Qed.

Lemma append_cons (c : ascii) (s1 s2 : string) :
  String c s1 +:+ s2 = String c (s1 +:+ s2).
Proof. reflexivity. Qed.

Lemma lang_eps_inv (s : string) : lang re_eps s → s = "".
Proof. by inversion 1. Qed.

Lemma lang_class_inv (p : ascii → bool) (s : string) :
  lang (re_class p) s → ∃ c, s = String c "" ∧ p c = true.
Proof. inversion 1; subst. eauto. Qed.

Lemma lang_cat_inv (r1 r2 : regex) (s : string) :
  lang (re_cat r1 r2) s → ∃ s1 s2, s = s1 +:+ s2 ∧ lang r1 s1 ∧ lang r2 s2.
Proof. inversion 1; subst. eauto. Qed.

Lemma nullable_lang (r : regex) : nullable r = true ↔ lang r "".
Proof.
  split.
  - induction r as [| |p|r1 IH1 r2 IH2|r1 IH1 r2 IH2|r1 IH1]; simpl; try done.
    + intros _. constructor.
    + intros [H1 H2]%andb_true_iff.
      apply (lang_cat r1 r2 "" ""); auto.
    + intros [H|H]%orb_true_iff; [apply lang_alt_l|apply lang_alt_r]; auto.
    + intros _. constructor.
  - intros H. remember "" as s eqn:Hs.
    induction H as [|p c Hp|r1 r2 s1 s2 _ IH1 _ IH2|r1 r2 s _ IH|r1 r2 s _ IH
                   |r|r s1 s2 _ _ _ _]; simpl; try done.
    + apply append_empty in Hs as [-> ->]. by rewrite IH1, IH2.
    + by rewrite IH.
    + rewrite IH by done. apply orb_true_r.
Qed.

Lemma deriv_sound (c : ascii) (r : regex) (s : string) :
  lang (deriv c r) s → lang r (String c s).
Proof.
  revert s.
  induction r as [| |p|r1 IH1 r2 IH2|r1 IH1 r2 IH2|r1 IH1]; simpl; intros s H.
  - inversion H.
  - inversion H.
  - destruct (p c) eqn:Hp; [|inversion H].
    apply lang_eps_inv in H as ->. by constructor.
  - destruct (nullable r1) eqn:Hn.
    + inversion H as [| | |? ? ? Hl|? ? ? Hr| |]; subst.
      * apply lang_cat_inv in Hl as (s1 & s2 & -> & H1 & H2).
        apply (lang_cat r1 r2 (String c s1) s2); auto.
      * apply (lang_cat r1 r2 "" (String c s)); [by apply nullable_lang|auto].
    + apply lang_cat_inv in H as (s1 & s2 & -> & H1 & H2).
      apply (lang_cat r1 r2 (String c s1) s2); auto.
  - inversion H; subst; [apply lang_alt_l|apply lang_alt_r]; auto.
  - apply lang_cat_inv in H as (s1 & s2 & -> & H1 & H2).
    apply (lang_star_cons r1 (String c s1) s2); auto.
Qed.

Lemma deriv_complete (c : ascii) (r : regex) (s : string) :
  lang r (String c s) → lang (deriv c r) s.
Proof.
  intros H. remember (String c s) as w eqn:Hw. revert s Hw.
  induction H as [|p c' Hp|r1 r2 s1 s2 H1 IH1 H2 IH2|r1 r2 w _ IH|r1 r2 w _ IH
                 |r|r s1 s2 H1 IH1 H2 IH2]; intros s Hw; simpl; try done.
  - injection Hw as -> <-. rewrite Hp. constructor.
  - destruct s1 as [|c' s1']; simpl in Hw.
    + apply nullable_lang in H1. rewrite H1. apply lang_alt_r. by apply IH2.
    + injection Hw as -> <-.
      assert (lang (re_cat (deriv c r1) r2) (s1' +:+ s2)) as Hcat
        by (constructor; auto).
      destruct (nullable r1); [by apply lang_alt_l|done].
  - apply lang_alt_l. by apply IH.
  - apply lang_alt_r. by apply IH.
  - destruct s1 as [|c' s1']; simpl in Hw.
    + by apply IH2.
    + injection Hw as -> <-. constructor; auto.
Qed.

Lemma matches_lang (r : regex) (s : string) : matches r s = true ↔ lang r s.
Proof.
  revert r. induction s as [|c s IH]; intros r; simpl.
  - apply nullable_lang.
  - rewrite IH. split; [apply deriv_sound|apply deriv_complete].
Qed.

Lemma lang_star_class (p : ascii → bool) (s : string) :
  lang (re_star (re_class p)) s ↔ all_in p s = true.
Proof.
  split.
  - intros H. remember (re_star (re_class p)) as r eqn:Hr.
    induction H as [| | | | |r|r s1 s2 H1 _ _ IH2]; try done.
    injection Hr as ->.
    apply lang_class_inv in H1 as (c & -> & Hc). simpl.
    rewrite Hc. exact (IH2 eq_refl).
  - induction s as [|c s IH]; simpl; [constructor|].
    intros [Hc Hs]%andb_true_iff.
    apply (lang_star_cons _ (String c "") s); [by constructor|auto].
Qed.

Lemma lang_plus_class (p : ascii → bool) (s : string) :
  lang (re_plus (re_class p)) s ↔ s ≠ "" ∧ all_in p s = true.
Proof.
  unfold re_plus. split.
  - intros (s1 & s2 & -> & (c & -> & Hc)%lang_class_inv & H2%lang_star_class)
      %lang_cat_inv.
    rewrite append_cons, append_nil_l. simpl. by rewrite Hc, H2.
  - destruct s as [|c s]; intros [Hne Hall]; [done|]. simpl in Hall.
    apply andb_true_iff in Hall as [Hc Hs].
    apply (lang_cat _ _ (String c "") s);
      [by constructor|by apply lang_star_class].
Qed.

Lemma lang_at_least_2 (p : ascii → bool) (s : string) :
  lang (re_at_least_2 (re_class p)) s
  ↔ (2 ≤ String.length s)%nat ∧ all_in p s = true.
Proof.
  unfold re_at_least_2. split.
  - intros (s1 & s' & -> & (c1 & -> & Hc1)%lang_class_inv
            & (s2 & s3 & -> & (c2 & -> & Hc2)%lang_class_inv
               & H3%lang_star_class)%lang_cat_inv)%lang_cat_inv.
    rewrite !append_cons, !append_nil_l. simpl.
    rewrite Hc1, Hc2, H3. split; [lia|done].
  - destruct s as [|c1 [|c2 s]]; simpl; intros [Hlen Hall]; try lia.
    apply andb_true_iff in Hall as [Hc1 [Hc2 Hs]%andb_true_iff].
    apply (lang_cat _ _ (String c1 "") (String c2 s)); [by constructor|].
    apply (lang_cat _ _ (String c2 "") s);
      [by constructor|by apply lang_star_class].
Qed.

Lemma lang_char (x : ascii) (s : string) :
  lang (re_class (is_char x)) s ↔ s = String x "".
Proof.
  split.
  - intros (c & -> & Hc)%lang_class_inv.
    by apply bool_decide_eq_true in Hc as ->.
  - intros ->. constructor. by apply bool_decide_eq_true.
Qed.

Lemma matches_email_format (s : string) :
  matches email_format s = true ↔ address_shape s.
Proof.
  rewrite matches_lang. unfold email_format, address_shape. split.
  - intros (loc & s1 & -> & [Hl1 Hl2]%lang_plus_class
            & (at_ & s2 & -> & ->%lang_char
               & (dom & s3 & -> & [Hd1 Hd2]%lang_plus_class
                  & (dot & tld & -> & ->%lang_char
                     & [Ht1 Ht2]%lang_at_least_2)%lang_cat_inv)%lang_cat_inv)
              %lang_cat_inv)%lang_cat_inv.
    by exists loc, dom, tld.
  - intros (loc & dom & tld & -> & Hl1 & Hl2 & Hd1 & Hd2 & Ht1 & Ht2).
    apply lang_cat; [by apply lang_plus_class|].
    apply lang_cat; [by apply lang_char|].
    apply lang_cat; [by apply lang_plus_class|].
    apply lang_cat; [by apply lang_char|].
    by apply lang_at_least_2.
Qed.

(** X1.  The format check of [create_user_invitation] accepts exactly the
    addresses of the shape [local@domain.tld]: a non-empty local part over
    [[A-Za-z0-9._%+-]], an [@], a non-empty domain over [[A-Za-z0-9.-]], a
    dot, and at least two letters up to the end of the string. *)
Theorem email_format_accepts_exactly (s : string) :
  matches email_format s = true ↔ address_shape s.
Proof. apply matches_email_format. Qed.

End Regex.

(** ** Stored addresses *)

Section Lower.
Import Text.

Lemma LOWER_app (s1 s2 : string) : LOWER (s1 +:+ s2) = LOWER s1 +:+ LOWER s2.
Proof.
  induction s1 as [|c s1 IH]; [done|].
  rewrite append_cons. simpl. by rewrite IH, append_cons.
Qed.

Lemma LOWER_length (s : string) : String.length (LOWER s) = String.length s.
Proof. induction s as [|c s IH]; simpl; [done|by rewrite IH]. Qed.

Lemma lower_ascii_idemp (c : ascii) : lower_ascii (lower_ascii c) = lower_ascii c.
Proof. destruct c as [[] [] [] [] [] [] [] []]; by vm_compute. Qed.

Lemma LOWER_idemp (s : string) : LOWER (LOWER s) = LOWER s.
Proof.
  induction s as [|c s IH]; [done|]. simpl. by rewrite lower_ascii_idemp, IH.
Qed.

Lemma local_class_lower (c : ascii) :
  local_class c = true → local_class (lower_ascii c) = true.
Proof. destruct c as [[] [] [] [] [] [] [] []]; by vm_compute. Qed.

Lemma domain_class_lower (c : ascii) :
  domain_class c = true → domain_class (lower_ascii c) = true.
Proof. destruct c as [[] [] [] [] [] [] [] []]; by vm_compute. Qed.

Lemma alpha_class_lower (c : ascii) :
  alpha_class c = true → alpha_class (lower_ascii c) = true.
Proof. destruct c as [[] [] [] [] [] [] [] []]; by vm_compute. Qed.

Lemma all_in_LOWER (p : ascii → bool) (s : string) :
  (∀ c, p c = true → p (lower_ascii c) = true) →
  all_in p s = true → all_in p (LOWER s) = true.
Proof.
  intros Hp. induction s as [|c s IH]; [done|]. simpl.
  intros [Hc Hs]%andb_true_iff. by rewrite (Hp c Hc), IH.
Qed.

Lemma address_shape_LOWER (s : string) :
  address_shape s → address_shape (LOWER s).
Proof.
  intros (loc & dom & tld & -> & Hl1 & Hl2 & Hd1 & Hd2 & Ht1 & Ht2).
  exists (LOWER loc), (LOWER dom), (LOWER tld).
  rewrite !LOWER_app, LOWER_length.
  split; [done|]. split; [by destruct loc|].
  split; [by apply all_in_LOWER; [apply local_class_lower|]|].
  split; [by destruct dom|].
  split; [by apply all_in_LOWER; [apply domain_class_lower|]|].
  split; [done|]. by apply all_in_LOWER; [apply alpha_class_lower|].
Qed.

(** X2.  The address [create_user_invitation] stores passes the format
    check itself, has no upper-case letter and is its own lower-case form:
    inviting the stored address again would store the same address. *)
Theorem stored_address_is_valid (cx : session) (d d' : db) (email : string)
    (role : org_role) (org : option uuid) (new_id id : uuid) (token : string) :
  run (create_user_invitation cx email role org new_id token) d = Done id d' →
  ∃ i,
    invitations d' = invitations d ++ [i]
    ∧ i_id i = id
    ∧ i_email i = LOWER email
    ∧ matches email_format (i_email i) = true
    ∧ has_upper (i_email i) = false
    ∧ LOWER (i_email i) = i_email i.
Proof.
  intros (-> & _ & Hfmt & _ & ->)%create_user_invitation_Done.
  eexists. split; [reflexivity|]. simpl. do 2 (split; [done|]).
  split; [by apply matches_email_format, address_shape_LOWER, matches_email_format|].
  split; [apply has_upper_LOWER|apply LOWER_idemp].
Qed.

End Lower.

(** ** Outcomes of [create_user_invitation] *)

(** X3.  [create_user_invitation] tests in this order: the caller (refused
    with "Only super admin can create invitations"), the address format
    ("Invalid email format"), the unique keys [id] and [token], and the
    foreign key of a non-null [org_id]; only then is the row stored.  What
    it commits is either the database it started from or that database
    with exactly the one new invitation appended. *)
Theorem create_user_invitation_outcome (cx : session) (d : db) (email : string)
    (role : org_role) (org : option uuid) (new_id : uuid) (token : string) :
  let call := create_user_invitation cx email role org new_id token in
  let stored :=
    with_invitations d
      (invitations d ++ [invitation_row cx email role org new_id token]) in
  (is_super_admin cx (auth_uid cx) d = false →
   run call d = Abort (raise_exception "Only super admin can create invitations"))
  ∧ (is_super_admin cx (auth_uid cx) d = true → ¬ address_shape email →
     run call d = Abort (raise_exception "Invalid email format"))
  ∧ (is_super_admin cx (auth_uid cx) d = true → address_shape email →
     new_id ∈ i_id <$> invitations d ∨ token ∈ i_token <$> invitations d →
     ∃ key, run call d = Abort (unique_violation key))
  ∧ (is_super_admin cx (auth_uid cx) d = true → address_shape email →
     new_id ∉ i_id <$> invitations d → token ∉ i_token <$> invitations d →
     org_ref_ok d org = false →
     run call d = Abort (foreign_key_violation "invitations_org_id_fkey"))
  ∧ (is_super_admin cx (auth_uid cx) d = true → address_shape email →
     new_id ∉ i_id <$> invitations d → token ∉ i_token <$> invitations d →
     org_ref_ok d org = true →
     run call d = Done new_id stored)
  ∧ (commit call d = d ∨ commit call d = stored).
Proof.
  intros call stored. unfold call, commit, create_user_invitation. simpl.
  destruct (is_super_admin cx (auth_uid cx) d); simpl.
  2:{ repeat split; intros; try done; by left. }
  destruct (Text.matches Text.email_format email) eqn:Hfmt; simpl.
  2:{ assert (¬ address_shape email) as Hno
        by (intros ?%matches_email_format; congruence).
      repeat split; intros; try done; try contradiction; by left. }
  apply matches_email_format in Hfmt.
  case_decide as Hid; simpl.
  { repeat split; intros; try done; try contradiction; eauto; by left. }
  case_decide as Htok; simpl.
  { repeat split; intros; try done; try contradiction; eauto; by left. }
  destruct (org_ref_ok d org); simpl.
  - repeat split; intros; try done; try tauto; by right.
  - repeat split; intros; try done; try tauto; by left.
Qed.

(** X3 at the sample deployment: [root] tries to invite a string without
    [@]. *)
Lemma create_user_invitation_outcome_witness :
  let cx := Sample.as_root 0 in
  (is_super_admin cx (auth_uid cx) Sample.base = true
   ∧ ¬ address_shape "not-an-address")
  ∧ run (create_user_invitation cx "not-an-address" viewer None 7%N "tok")
      Sample.base
    = Abort (raise_exception "Invalid email format").
Proof.
  intros cx.
  assert (¬ address_shape "not-an-address") as Hbad
    by (by intros Hs%matches_email_format).
  split; [by split|].
  by apply (create_user_invitation_outcome cx Sample.base "not-an-address"
              viewer None 7%N "tok").
Defined.

(** ** The signup trigger, for every signup *)

(** X4.  Installing [handle_invitation_signup] in place of
    [handle_new_user] changes nothing: on every database and for every
    signup the two triggers give the same result.  In particular no signup
    writes to [invitations] or to [organizations]. *)
Theorem handle_invitation_signup_is_handle_new_user (cx : session)
    (NEW : auth_user) (new_org_id : uuid) (d : db) :
  run (handle_invitation_signup cx NEW new_org_id) d = run (handle_new_user NEW) d
  ∧ invitations (commit (handle_invitation_signup cx NEW new_org_id) d)
    = invitations d
  ∧ organizations (commit (handle_invitation_signup cx NEW new_org_id) d)
    = organizations d.
Proof.
  split; [|split].
  - rewrite handle_invitation_signup_regular.
    unfold handle_new_user, regular_signup. simpl.
    case_decide; simpl; [done|].
    destruct (select_public_org d); simpl; [|done].
    repeat (case_decide; simpl); done.
  - apply handle_invitation_signup_invitations.
  - unfold commit. rewrite handle_invitation_signup_regular.
    unfold regular_signup. simpl.
    case_decide; simpl; [done|].
    destruct (select_public_org d); simpl; [|done].
    repeat (case_decide; simpl); done.
Qed.

(** X5.  The lookup of the signup trigger returns a pending invitation for
    the signup address that no other pending invitation for that address
    is newer than, and returns nothing exactly when the address has no
    pending invitation. *)
Theorem select_invitation_newest_pending (cx : session) (NEW : auth_user)
    (d : db) :
  match select_invitation cx NEW d with
  | Some r =>
      r ∈ invitations d
      ∧ i_email r = u_email NEW
      ∧ status cx r = pending
      ∧ ∀ j, j ∈ invitations d → i_email j = u_email NEW →
             status cx j = pending → i_created_at j ≤ i_created_at r
  | None =>
      ∀ j, j ∈ invitations d → i_email j = u_email NEW → status cx j ≠ pending
  end.
Proof.
  destruct (select_invitation cx NEW d) as [r|] eqn:Hsel.
  - apply select_invitation_Some in Hsel as (Hr & He & Hu & Ht & Hmax).
    do 2 (split; [done|]). split.
    + unfold status. rewrite Hu. by rewrite decide_True.
    + intros j Hj Hje Hjp. unfold status in Hjp.
      destruct (i_used_at j) eqn:Hju; [done|].
      case_decide; [|done]. by apply Hmax.
  - by apply select_invitation_None.
Qed.

(** ** Constraints *)

Lemma preserves_commit {A : Type} (m : plpgsql A) (d : db) :
  preserves m → consistent d → consistent (commit m d).
Proof.
  intros Hm Hd. unfold commit.
  destruct (run m d) as [a d'|e] eqn:Hrun; [|done]. by eapply Hm.
Qed.

Lemma preserves_ensure_bootstrap_invitation (t : timestamptz) (new_id : uuid) :
  preserves (ensure_bootstrap_invitation t new_id).
Proof.
  intros d a d' Hd. unfold ensure_bootstrap_invitation. cbn [run].
  case_decide.
  - intros [= _ Hd']; subst d'.
    by eapply (preserves_update_invitations
                 (set_expires_at (t + interval_days 365))
                 (λ i, i_token i = bootstrap_token) (λ _, eq_refl) (λ _, eq_refl)
                 (λ _, eq_refl) d _ _ Hd).
  - by apply preserves_insert_invitation.
Qed.

Lemma preserves_bypass_invitation (t : timestamptz) (new_id : uuid) :
  preserves (bypass_invitation t new_id).
Proof.
  intros d a d' Hd. unfold bypass_invitation. cbn [run].
  case_decide; [by intros [= _ Hd']; subst d'|].
  by apply preserves_insert_invitation.
Qed.



(** ** Listing, revoking and creating invitations together *)

Lemma left_join_fst (d : db) (i : invitation)
    (io : invitation * option organization) :
  io ∈ left_join_organizations d i → io.1 = i.
Proof.
  unfold left_join_organizations.
  destruct (filter _ (organizations d)) as [|o os].
  - by intros ->%list_elem_of_singleton.
  - by intros (o' & -> & _)%list_elem_of_fmap.
Qed.

Lemma left_join_nonempty (d : db) (i : invitation) :
  ∃ o, (i, o) ∈ left_join_organizations d i.
Proof.
  unfold left_join_organizations.
  destruct (filter _ (organizations d)) as [|o os].
  - exists None. apply list_elem_of_here.
  - exists (Some o). apply list_elem_of_here.
Qed.

(** Every listed row shows a pending invitation, to a super-admin. *)
Lemma get_pending_invitations_elem (cx : session) (d : db)
    (r : pending_invitation) :
  r ∈ get_pending_invitations cx d →
  is_super_admin cx (auth_uid cx) d = true
  ∧ ∃ i o, i ∈ invitations d ∧ r = pending_row (i, o)
           ∧ i_used_at i = None ∧ now cx < i_expires_at i.
Proof.
  unfold get_pending_invitations.
  intros (io & -> & Hio)%list_elem_of_fmap.
  rewrite order_by_desc_perm in Hio.
  apply list_elem_of_filter in Hio as [(Hsa & Hu & Ht) Hio].
  apply list_elem_of_bind in Hio as (i & Hio & Hi).
  split; [done|]. pose proof (left_join_fst d i io Hio) as Hfst.
  destruct io as [i' o]. simpl in *. subst i'. by exists i, o.
Qed.

(** Every pending invitation is listed, to a super-admin. *)
Lemma get_pending_invitations_complete (cx : session) (d : db) (i : invitation) :
  is_super_admin cx (auth_uid cx) d = true →
  i ∈ invitations d → i_used_at i = None → now cx < i_expires_at i →
  ∃ o, pending_row (i, o) ∈ get_pending_invitations cx d.
Proof.
  intros Hsa Hi Hu Ht. destruct (left_join_nonempty d i) as [o Ho].
  exists o. unfold get_pending_invitations.
  apply list_elem_of_fmap_2. rewrite order_by_desc_perm.
  apply list_elem_of_filter. split; [done|].
  apply list_elem_of_bind. by exists i.
Qed.

(** X7.  For a caller who is not a super-admin [get_pending_invitations]
    raises nothing: it returns the empty list, whatever invitations are
    stored. *)
Theorem get_pending_invitations_hidden (cx : session) (d : db) :
  is_super_admin cx (auth_uid cx) d = false →
  get_pending_invitations cx d = [].
Proof.
  intros Hden. apply elem_of_nil_inv. intros r [Hsa _]%get_pending_invitations_elem.
  congruence.
Qed.

(** X7 at the sample data: [alice] sees none of the two pending offers. *)
Lemma get_pending_invitations_hidden_witness :
  let cx := Sample.as_alice (3 * Sample.day) in
  let d := Sample.with_invites [Sample.offer1; Sample.offer2] in
  is_super_admin cx (auth_uid cx) d = false
  ∧ get_pending_invitations cx d = []
  ∧ get_pending_invitations (Sample.as_root (3 * Sample.day)) d ≠ [].
Proof.
  intros cx d. split; [reflexivity|].
  split; [by apply (get_pending_invitations_hidden cx d)|done].
Defined.

Lemma revoked_rows (cx : session) (d : db) (invitation_id : uuid)
    (j : invitation) :
  j ∈ update_rows (set_expires_at (now cx - interval_days 1))
        (λ i, i_id i = invitation_id) (invitations d) →
  i_id j = invitation_id →
  i_expires_at j = now cx - interval_days 1.
Proof.
  intros (i & Hi & ->)%update_rows_elem. case_decide as Hc; [done|].
  intros Hid. by destruct Hc.
Qed.

(** X8.  For a super-admin, [revoke_invitation] always completes; it
    returns true exactly when some invitation has the given id, and called
    with an id that no invitation has it leaves the database as it was.
    It never touches organizations, memberships or profiles. *)
Theorem revoke_invitation_found (cx : session) (d : db) (invitation_id : uuid) :
  is_super_admin cx (auth_uid cx) d = true →
  ∃ b d',
    run (revoke_invitation cx invitation_id) d = Done b d'
    ∧ (b = true ↔ invitation_id ∈ i_id <$> invitations d)
    ∧ (b = false → d' = d)
    ∧ organizations d' = organizations d
    ∧ organization_members d' = organization_members d
    ∧ profiles d' = profiles d.
Proof.
  intros Hsa. do 2 eexists.
  split; [by apply revoke_invitation_allowed|].
  split; [|split; [|done]].
  - unfold found_rows. rewrite bool_decide_eq_true, Exists_exists.
    rewrite list_elem_of_fmap. split.
    + intros (i & Hi & <-). by exists i.
    + intros (i & -> & Hi). by exists i.
  - intros Hb%bool_decide_eq_false. rewrite Exists_exists in Hb.
    rewrite update_rows_none; [apply with_invitations_same|].
    intros i Hi Hid. apply Hb. by exists i.
Qed.

(** X8 at the sample data: revoking the unknown id 999. *)
Lemma revoke_invitation_found_witness :
  let cx := Sample.as_root (3 * Sample.day) in
  let d := Sample.with_invites [Sample.offer1] in
  is_super_admin cx (auth_uid cx) d = true
  ∧ run (revoke_invitation cx 999%N) d = Done false d.
Proof.
  intros cx d. split; [reflexivity|].
  destruct (revoke_invitation_found cx d 999%N eq_refl)
    as (b & d' & Hrun & Hb & Hsame & _).
  rewrite Hrun. destruct b.
  - assert (999%N ∉ i_id <$> invitations d) as Hno
      by (by apply (bool_decide_unpack _)).
    destruct Hno. by apply Hb.
  - by rewrite Hsame.
Defined.

Lemma revoke_invitation_Done (cx : session) (d d' : db) (invitation_id : uuid)
    (b : bool) :
  run (revoke_invitation cx invitation_id) d = Done b d' →
  is_super_admin cx (auth_uid cx) d = true
  ∧ d' = with_invitations d
           (update_rows (set_expires_at (now cx - interval_days 1))
              (λ i, i_id i = invitation_id) (invitations d)).
Proof.
  destruct (is_super_admin cx (auth_uid cx) d) eqn:Hsa.
  - rewrite revoke_invitation_allowed by done. by intros [= _ <-].
  - by rewrite revoke_invitation_denied.
Qed.

(** X9.  Once [revoke_invitation] has completed, the invitation with that
    id is not pending at any time from the revocation on: it is never
    listed by [get_pending_invitations] and never returned by the lookup of
    the signup trigger. *)
Theorem revoked_invitation_is_dead (cx cx' : session) (d d' : db)
    (invitation_id : uuid) (b : bool) :
  run (revoke_invitation cx invitation_id) d = Done b d' →
  now cx ≤ now cx' →
  (∀ i, i ∈ invitations d' → i_id i = invitation_id → status cx' i ≠ pending)
  ∧ (invitation_id ∉ r_id <$> get_pending_invitations cx' d')
  ∧ (∀ NEW r, select_invitation cx' NEW d' = Some r → i_id r ≠ invitation_id).
Proof.
  intros [_ ->]%revoke_invitation_Done Hlater. simpl.
  assert (∀ i, i ∈ update_rows (set_expires_at (now cx - interval_days 1))
                     (λ i, i_id i = invitation_id) (invitations d) →
               i_id i = invitation_id → ¬ now cx' < i_expires_at i) as Hdead.
  { intros i Hi Hid. rewrite (revoked_rows cx d invitation_id i Hi Hid).
    unfold interval_days. lia. }
  split; [|split].
  - intros i Hi Hid. unfold status. destruct (i_used_at i); [done|].
    rewrite decide_False; [done|]. by apply Hdead.
  - intros (r & Hid & [_ (i & o & Hi & -> & _ & Ht)]%get_pending_invitations_elem)
      %list_elem_of_fmap.
    simpl in Hid. by apply (Hdead i Hi).
  - intros NEW r (Hr & _ & _ & Ht & _)%select_invitation_Some Hid.
    by apply (Hdead r Hr).
Qed.

(** X9 at the sample data: the day-2 offer is revoked on day 3; the lookup
    for [dup@x.com] then returns the day-1 offer. *)
Lemma revoked_invitation_is_dead_witness :
  let cx := Sample.as_root (3 * Sample.day) in
  let d := Sample.with_invites [Sample.offer1; Sample.offer2] in
  let d' := commit (revoke_invitation cx (i_id Sample.offer2)) d in
  (run (revoke_invitation cx (i_id Sample.offer2)) d = Done true d'
   ∧ now cx ≤ now (Sample.signup_at (4 * Sample.day)))
  ∧ (i_id Sample.offer2 ∉ r_id <$> get_pending_invitations cx d')
  ∧ select_invitation (Sample.signup_at (4 * Sample.day)) Sample.dup d
    = Some Sample.offer2
  ∧ select_invitation (Sample.signup_at (4 * Sample.day)) Sample.dup d'
    = Some Sample.offer1.
Proof.
  intros cx d d'.
  assert (run (revoke_invitation cx (i_id Sample.offer2)) d = Done true d')
    as Hrun by reflexivity.
  split; [by split|].
  split; [|by split].
  by apply (revoked_invitation_is_dead cx cx d d' _ true Hrun).
Defined.

(** X10.  An invitation that [create_user_invitation] has just stored is
    pending: the same caller finds it in [get_pending_invitations] with the
    lower-cased address, the given role and an expiry seven days ahead, and
    until that expiry the lookup of the signup trigger finds a pending
    invitation for the lower-cased address. *)
Theorem created_invitation_is_pending (cx : session) (d d' : db)
    (email : string) (role : org_role) (org : option uuid) (new_id id : uuid)
    (token : string) :
  run (create_user_invitation cx email role org new_id token) d = Done id d' →
  (∃ r, r ∈ get_pending_invitations cx d'
        ∧ r_id r = id
        ∧ r_email r = Text.LOWER email
        ∧ r_role r = role
        ∧ r_expires_at r = now cx + interval_days 7
        ∧ r_created_at r = now cx)
  ∧ (∀ cx' NEW, now cx' < now cx + interval_days 7 →
                u_email NEW = Text.LOWER email →
                is_Some (select_invitation cx' NEW d')).
Proof.
  intros (-> & Hsa & _ & _ & ->)%create_user_invitation_Done.
  set (i := Invitation new_id (Text.LOWER email) token role org (auth_uid cx)
              (now cx + interval_days 7) None (now cx)).
  assert (i ∈ invitations (with_invitations d (invitations d ++ [i]))) as Hi.
  { simpl. apply elem_of_app. right. apply list_elem_of_here. }
  split.
  - destruct (get_pending_invitations_complete cx
                (with_invitations d (invitations d ++ [i])) i Hsa Hi eq_refl)
      as [o Ho]; [simpl; unfold interval_days; lia|].
    by exists (pending_row (i, o)).
  - intros cx' NEW Ht He.
    destruct (select_invitation cx' NEW _) as [r|] eqn:Hsel; [by eexists|].
    exfalso. apply (proj1 (select_invitation_None cx' NEW _) Hsel i Hi);
      [done|].
    unfold status. simpl. by rewrite decide_True.
Qed.

(** X10 at the sample deployment: [root] invites [New@X.com] as admin of
    Acme. *)
Lemma created_invitation_is_pending_witness :
  let cx := Sample.as_root 0 in
  let call := create_user_invitation cx "New@X.com" admin (Some Sample.acme)
                105%N "tok-5" in
  run call Sample.base = Done 105%N (commit call Sample.base)
  ∧ ∃ r, r ∈ get_pending_invitations cx (commit call Sample.base)
         ∧ r_id r = 105%N ∧ r_email r = "new@x.com" ∧ r_role r = admin.
Proof.
  intros cx call.
  assert (run call Sample.base = Done 105%N (commit call Sample.base)) as Hrun
    by reflexivity.
  split; [exact Hrun|].
  destruct (created_invitation_is_pending cx Sample.base
              (commit call Sample.base) "New@X.com" admin (Some Sample.acme)
              105%N 105%N "tok-5" Hrun)
    as [(r & Hr & Hid & He & Hrole & _) _].
  by exists r.
Defined.

(** ** Who is a super-admin *)

Lemma is_super_admin_Some (cx : session) (d : db) (u : uuid) :
  is_super_admin cx (Some u) d = true
  ↔ ∃ x, x ∈ organization_members d ∧ m_user_id x = u ∧ m_role x = super_admin.
Proof.
  unfold is_super_admin. simpl. rewrite bool_decide_eq_true, Exists_exists.
  done.
Qed.

Lemma grants_no_super_admin_mono {A : Type} (m : plpgsql A) (cx : session)
    (d : db) (u : uuid) :
  grants_no_super_admin m →
  is_super_admin cx (Some u) (commit m d) = true →
  is_super_admin cx (Some u) d = true.
Proof.
  intros Hm (x & Hx & Hu & Hr)%is_super_admin_Some.
  apply is_super_admin_Some. exists x. split; [by apply Hm|done].
Qed.

Lemma snoc_not_super_admin (l : list organization_member)
    (y x : organization_member) :
  m_role y ≠ super_admin → x ∈ l ++ [y] → m_role x = super_admin → x ∈ l.
Proof.
  intros Hy [Hx|Hx]%elem_of_app Hr; [done|].
  apply list_elem_of_singleton in Hx as ->. by destruct Hy.
Qed.

Lemma grants_none_create_user_invitation cx email role org new_id token :
  grants_no_super_admin (create_user_invitation cx email role org new_id token).
Proof.
  intros d x. unfold commit, create_user_invitation. simpl.
  destruct (is_super_admin cx (auth_uid cx) d); simpl; [|done].
  destruct (Text.matches Text.email_format email); simpl; [|done].
  repeat (case_decide; simpl; try done).
  by destruct (org_ref_ok d org).
Qed.

Lemma grants_none_revoke_invitation cx invitation_id :
  grants_no_super_admin (revoke_invitation cx invitation_id).
Proof.
  intros d x. unfold commit, revoke_invitation. simpl.
  by destruct (is_super_admin cx (auth_uid cx) d).
Qed.

Lemma grants_none_promote_user_to_owner cx u o :
  grants_no_super_admin (promote_user_to_owner cx u o).
Proof.
  intros d x. unfold commit, promote_user_to_owner. simpl.
  destruct (is_super_admin cx (auth_uid cx) d); simpl; [|done].
  intros (y & Hy & ->)%update_rows_elem. by case_decide.
Qed.

Lemma grants_none_create_organization cx name is_public new_id :
  grants_no_super_admin
    (create_organization_as_super_admin cx name is_public new_id).
Proof.
  intros d x. unfold commit, create_organization_as_super_admin. simpl.
  destruct (is_super_admin cx (auth_uid cx) d); simpl; [|done].
  case_decide; simpl; [done|].
  destruct (auth_uid cx); simpl; [|done].
  repeat (case_decide; simpl; try done).
  by apply snoc_not_super_admin.
Qed.

Lemma grants_none_handle_invitation_signup cx NEW new_org_id :
  grants_no_super_admin (handle_invitation_signup cx NEW new_org_id).
Proof.
  intros d x. unfold commit. rewrite handle_invitation_signup_regular.
  unfold regular_signup. simpl.
  case_decide; simpl; [done|].
  destruct (select_public_org d); simpl; [|done].
  repeat (case_decide; simpl; try done).
  by apply snoc_not_super_admin.
Qed.

(** X11.  No command of the administrative surface grants the super-admin
    capability: whoever is a super-admin after [create_user_invitation],
    [revoke_invitation], [promote_user_to_owner] or
    [create_organization_as_super_admin], called by anyone with any
    arguments, was one before.  ([promote_user_to_owner] can take it
    away.) *)
Theorem super_admin_is_never_granted (cx : session) (d : db) (u : uuid) :
  (∀ cx' email role org new_id token,
     is_super_admin cx (Some u)
       (commit (create_user_invitation cx' email role org new_id token) d) = true →
     is_super_admin cx (Some u) d = true)
  ∧ (∀ cx' invitation_id,
       is_super_admin cx (Some u)
         (commit (revoke_invitation cx' invitation_id) d) = true →
       is_super_admin cx (Some u) d = true)
  ∧ (∀ cx' v o,
       is_super_admin cx (Some u)
         (commit (promote_user_to_owner cx' v o) d) = true →
       is_super_admin cx (Some u) d = true)
  ∧ (∀ cx' name is_public new_id,
       is_super_admin cx (Some u)
         (commit (create_organization_as_super_admin cx' name is_public new_id) d)
       = true →
       is_super_admin cx (Some u) d = true).
Proof.
  split; [|split; [|split]]; intros;
    eapply grants_no_super_admin_mono; try eassumption.
  - apply grants_none_create_user_invitation.
  - apply grants_none_revoke_invitation.
  - apply grants_none_promote_user_to_owner.
  - apply grants_none_create_organization.
Qed.

(** X11 at the sample deployment: [alice] is no super-admin after [root]
    created an organization. *)
Lemma super_admin_is_never_granted_witness :
  let cx := Sample.as_root 0 in
  let d' := commit (create_organization_as_super_admin cx "Acme Labs" false 3%N)
              Sample.base in
  is_super_admin cx (Some Sample.alice) Sample.base = false
  ∧ is_super_admin cx (Some Sample.alice) d' = false.
Proof.
  intros cx d'. split; [reflexivity|].
  destruct (is_super_admin cx (Some Sample.alice) d') eqn:Hsa; [|done].
  destruct (super_admin_is_never_granted cx Sample.base Sample.alice)
    as (_ & _ & _ & Hcreate).
  by apply Hcreate in Hsa.
Defined.

(** X12.  A signup never makes anyone a super-admin, whatever invitations
    are pending: whoever is a super-admin after the trigger ran was one
    before. *)
Theorem signup_grants_no_super_admin (cx cx' : session) (NEW : auth_user)
    (new_org_id : uuid) (d : db) (u : uuid) :
  is_super_admin cx (Some u)
    (commit (handle_invitation_signup cx' NEW new_org_id) d) = true →
  is_super_admin cx (Some u) d = true.
Proof.
  apply grants_no_super_admin_mono, grants_none_handle_invitation_signup.
Qed.

(** X12 at the sample deployment: [root] is a super-admin before and after
    the signup of [dup@x.com]. *)
Lemma signup_grants_no_super_admin_witness :
  let cx := Sample.signup_at (3 * Sample.day) in
  let d := Sample.with_invites [Sample.offer1; Sample.offer2] in
  is_super_admin cx (Some Sample.root)
    (commit (handle_invitation_signup cx Sample.dup 9%N) d) = true
  ∧ is_super_admin cx (Some Sample.root) d = true.
Proof.
  intros cx d.
  assert (is_super_admin cx (Some Sample.root)
            (commit (handle_invitation_signup cx Sample.dup 9%N) d) = true)
    as Hafter by reflexivity.
  split; [exact Hafter|].
  exact (signup_grants_no_super_admin cx cx Sample.dup 9%N d Sample.root Hafter).
Defined.

(** ** Promoting twice, promoting nobody *)

Lemma update_rows_idemp {A : Type} (set : A → A) (cond : A → Prop)
    `{∀ x, Decision (cond x)} (l : list A) :
  (∀ x, set (set x) = set x) → (∀ x, cond x → cond (set x)) →
  update_rows set cond (update_rows set cond l) = update_rows set cond l.
Proof.
  intros Hset Hcond. unfold update_rows. rewrite <- list_fmap_compose.
  apply list_fmap_ext. intros _ x _. simpl.
  destruct (decide (cond x)) as [Hc|Hc].
  - rewrite decide_True by auto. apply Hset.
  - by rewrite decide_False.
Qed.

Lemma with_organization_members_same (d : db) :
  with_organization_members d (organization_members d) = d.
Proof. by destruct d. Qed.

(** X13.  [promote_user_to_owner] is idempotent on what it commits: a
    second identical call changes nothing more, even when the first call
    demoted the caller so that the second is refused.  Called by a
    super-admin for a (user, organization) pair without membership row, it
    returns false and changes nothing; it never inserts a membership. *)
Theorem promote_user_to_owner_idempotent (cx : session) (u o : uuid) (d : db) :
  commit (promote_user_to_owner cx u o) (commit (promote_user_to_owner cx u o) d)
  = commit (promote_user_to_owner cx u o) d
  ∧ List.length (organization_members (commit (promote_user_to_owner cx u o) d))
    = List.length (organization_members d)
  ∧ (is_super_admin cx (auth_uid cx) d = true →
     get_user_org_role d u o = None →
     run (promote_user_to_owner cx u o) d = Done false d).
Proof.
  split; [|split].
  - destruct (is_super_admin cx (auth_uid cx) d) eqn:Hsa.
    2:{ by rewrite !(commit_abort _ d _ (promote_user_to_owner_denied cx d Hsa u o)). }
    rewrite (commit_done _ d _ _ (promote_user_to_owner_allowed cx d u o Hsa)).
    set (d1 := with_organization_members d _).
    destruct (is_super_admin cx (auth_uid cx) d1) eqn:Hsa1.
    2:{ by rewrite (commit_abort _ d1 _ (promote_user_to_owner_denied cx d1 Hsa1 u o)). }
    rewrite (commit_done _ d1 _ _ (promote_user_to_owner_allowed cx d1 u o Hsa1)).
    unfold d1. simpl. rewrite update_rows_idemp; done.
  - destruct (is_super_admin cx (auth_uid cx) d) eqn:Hsa.
    + rewrite (commit_done _ d _ _ (promote_user_to_owner_allowed cx d u o Hsa)).
      simpl. unfold update_rows. by rewrite length_fmap.
    + by rewrite (commit_abort _ d _ (promote_user_to_owner_denied cx d Hsa u o)).
  - intros Hsa Hnone. rewrite promote_user_to_owner_allowed by done.
    assert (∀ m, m ∈ organization_members d →
                 ¬ (m_user_id m = u ∧ m_org_id m = o)) as Hno.
    { intros m Hm Hc. unfold get_user_org_role in Hnone.
      destruct (head _) as [x|] eqn:Hhead; [done|].
      apply head_None in Hhead.
      by apply (filter_nil_not_elem_of _ _ m Hhead). }
    rewrite found_rows_false, update_rows_none by done.
    by rewrite with_organization_members_same.
Qed.

(** X13 at the sample deployment: [bob] has no membership in Acme. *)
Lemma promote_user_to_owner_idempotent_witness :
  let cx := Sample.as_root 0 in
  (is_super_admin cx (auth_uid cx) Sample.base = true
   ∧ get_user_org_role Sample.base Sample.bob Sample.acme = None)
  ∧ run (promote_user_to_owner cx Sample.bob Sample.acme) Sample.base
    = Done false Sample.base.
Proof.
  intros cx. split; [by split|].
  by apply (promote_user_to_owner_idempotent cx Sample.bob Sample.acme
              Sample.base).
Defined.

(** ** The bootstrap invitation *)

Lemma update_rows_fix {A : Type} (set : A → A) (cond : A → Prop)
    `{∀ x, Decision (cond x)} (l : list A) :
  (∀ x, x ∈ l → cond x → set x = x) → update_rows set cond l = l.
Proof.
  intros Hfix. unfold update_rows. induction l as [|x l IH]; [done|].
  csimpl. rewrite IH by (intros y Hy; apply Hfix; by right). f_equal.
  case_decide; [|done]. apply Hfix; [left|done].
Qed.

Lemma consistent_invitations_token_key (d : db) :
  consistent d → NoDup (i_token <$> invitations d).
Proof. by intros (_ & _ & _ & _ & ? & _). Qed.

Lemma ensure_bootstrap_invitation_again (t : timestamptz) (new_id : uuid)
    (d : db) :
  (∀ j, j ∈ invitations d → i_token j = bootstrap_token →
        i_expires_at j = t + interval_days 365) →
  bootstrap_token ∈ i_token <$> invitations d →
  run (ensure_bootstrap_invitation t new_id) d = Done () d.
Proof.
  intros Hexp Htok. unfold ensure_bootstrap_invitation. cbn [run].
  rewrite decide_True by done.
  rewrite update_rows_fix; [by rewrite with_invitations_same|].
  intros j Hj Hc. rewrite <- (Hexp j Hj Hc). by destruct j.
Qed.

(** X14.  The bootstrap statement of the super-admin migration
    ([INSERT ... ON CONFLICT (token) DO UPDATE]) leaves exactly one
    invitation with the bootstrap token, expiring 365 days after the run.
    A row that already carried the token keeps all its other columns (also
    a set [used_at]), so running the statement extends an expired or
    revoked bootstrap invitation; all other invitations are untouched, and
    running the statement again at the same time changes nothing. *)
Theorem ensure_bootstrap_invitation_effect (t : timestamptz) (new_id : uuid)
    (d : db) :
  consistent d →
  bootstrap_token ∈ i_token <$> invitations d ∨ new_id ∉ i_id <$> invitations d →
  ∃ d' i,
    run (ensure_bootstrap_invitation t new_id) d = Done () d'
    ∧ i ∈ invitations d'
    ∧ i_token i = bootstrap_token
    ∧ i_expires_at i = t + interval_days 365
    ∧ (∀ j, j ∈ invitations d' → i_token j = bootstrap_token → j = i)
    ∧ (∀ j, j ∈ invitations d → i_token j = bootstrap_token →
            i = set_expires_at (t + interval_days 365) j)
    ∧ (bootstrap_token ∉ i_token <$> invitations d →
       i = bootstrap_row t 365 new_id)
    ∧ (∀ j, j ∈ invitations d → i_token j ≠ bootstrap_token →
            j ∈ invitations d')
    ∧ (∀ new_id', run (ensure_bootstrap_invitation t new_id') d' = Done () d').
Proof.
  intros Hcons Hfree.
  pose proof (consistent_invitations_token_key d Hcons) as Htokens.
  destruct (decide (bootstrap_token ∈ i_token <$> invitations d)) as [Hin|Hout].
  - pose proof Hin as (j0 & Htok0 & Hj0)%list_elem_of_fmap.
    exists (with_invitations d
              (update_rows (set_expires_at (t + interval_days 365))
                 (λ i, i_token i = bootstrap_token) (invitations d))),
      (set_expires_at (t + interval_days 365) j0).
    split.
    { unfold ensure_bootstrap_invitation. cbn [run]. by rewrite decide_True. }
    cbn [invitations with_invitations].
    assert (∀ j, j ∈ invitations d → i_token j = bootstrap_token → j = j0)
      as Huniq.
    { intros j Hj Hjt.
      apply (NoDup_fmap_eq i_token (invitations d)); [done..|congruence]. }
    assert (∀ j, j ∈ update_rows (set_expires_at (t + interval_days 365))
                       (λ i, i_token i = bootstrap_token) (invitations d) →
                 i_token j = bootstrap_token →
                 j = set_expires_at (t + interval_days 365) j0) as Huniq'.
    { intros j (y & Hy & ->)%update_rows_elem.
      case_decide as Hc; [|done]. intros _. by rewrite (Huniq y Hy Hc). }
    split; [by apply update_rows_hit|]. do 2 (split; [done|]).
    split; [done|].
    split; [intros j Hj Hjt; by rewrite (Huniq j Hj Hjt)|].
    split; [done|].
    split; [intros j Hj Hjt; by apply update_rows_miss|].
    intros new_id'.
    apply ensure_bootstrap_invitation_again; cbn [invitations with_invitations].
    + intros j Hj Hjt. by rewrite (Huniq' j Hj Hjt).
    + by rewrite fmap_update_rows.
  - destruct Hfree as [?|Hid]; [done|].
    exists (with_invitations d (invitations d ++ [bootstrap_row t 365 new_id])),
      (bootstrap_row t 365 new_id).
    split.
    { unfold ensure_bootstrap_invitation. cbn [run].
      rewrite decide_False by done. unfold insert_invitation. cbn [run].
      by rewrite !decide_False by done. }
    cbn [invitations with_invitations].
    assert (∀ j, j ∈ invitations d ++ [bootstrap_row t 365 new_id] →
                 i_token j = bootstrap_token → j = bootstrap_row t 365 new_id)
      as Huniq.
    { intros j [Hj|Hj]%elem_of_app Hjt.
      - destruct Hout. rewrite <- Hjt. by apply list_elem_of_fmap_2.
      - by apply list_elem_of_singleton in Hj. }
    split; [apply elem_of_app; right; apply list_elem_of_here|].
    do 2 (split; [done|]). split; [done|].
    split.
    { intros j Hj Hjt. destruct Hout. rewrite <- Hjt.
      by apply list_elem_of_fmap_2. }
    split; [done|].
    split; [intros j Hj _; apply elem_of_app; by left|].
    intros new_id'.
    apply ensure_bootstrap_invitation_again; cbn [invitations with_invitations].
    + intros j Hj Hjt. by rewrite (Huniq j Hj Hjt).
    + rewrite fmap_app, elem_of_app. right. apply list_elem_of_here.
Qed.

(** X14 at a fresh installation whose bootstrap invitation was revoked:
    run on day 10, the statement makes it pending again. *)
Lemma ensure_bootstrap_invitation_effect_witness :
  let revoked := set_expires_at (- Sample.day) Sample.bootstrap in
  let d := with_invitations Sample.fresh_install [revoked] in
  let t := 10 * Sample.day in
  (consistent d ∧ bootstrap_token ∈ i_token <$> invitations d)
  ∧ status (Sample.signup_at t) revoked = expired
  ∧ ∃ d' i,
      run (ensure_bootstrap_invitation t 7%N) d = Done () d'
      ∧ invitations d' = [i]
      ∧ status (Sample.signup_at t) i = pending.
Proof.
  intros revoked d t.
  assert (consistent d) as Hcons by (by apply (bool_decide_unpack _)).
  assert (bootstrap_token ∈ i_token <$> invitations d) as Htok
    by apply list_elem_of_here.
  split; [by split|]. split; [reflexivity|].
  destruct (ensure_bootstrap_invitation_effect t 7%N d Hcons (or_introl Htok))
    as (d' & i & Hrun & _ & _ & _ & _ & Hsame & _).
  exists d', i. split; [exact Hrun|].
  rewrite (Hsame revoked (list_elem_of_here _ _) eq_refl).
  vm_compute in Hrun. injection Hrun as <-. by split.
Defined.

(** ** Listing users with their roles *)

Section Users.
Context (email_le : relation string) `{!RelDecision email_le}.
Context `{!Total email_le} `{!Transitive email_le}.
Variable d : db.

Local Abbreviation joined :=
  ((profiles d ≫= join_members d) ≫= join_member_orgs d).
Local Abbreviation rows_of p := (join_members d p ≫= join_member_orgs d).

Local Instance by_email_total : Total (by_email email_le).
Proof. intros a b. unfold by_email. apply total, _. Qed.

Local Instance by_email_trans : Transitive (by_email email_le).
Proof. intros a b c. unfold by_email. apply transitivity. Qed.

Lemma omap_bind {A B C : Type} (f : B → option C) (g : A → list B) (l : list A) :
  omap f (l ≫= g) = l ≫= λ x, omap f (g x).
Proof.
  induction l as [|x l IH]; [done|].
  by rewrite !bind_cons, omap_app, IH.
Qed.

Lemma bind_bind {A B C : Type} (f : A → list B) (g : B → list C) (l : list A) :
  (l ≫= f) ≫= g = l ≫= λ x, f x ≫= g.
Proof.
  induction l as [|x l IH]; [done|].
  by rewrite !bind_cons, bind_app, IH.
Qed.

Lemma filter_all {A : Type} (P : Prop) `{Decision P} (l : list A) :
  P → filter (λ _, P) l = l.
Proof.
  intros HP. induction l as [|x l IH]; [done|].
  by rewrite filter_cons_True, IH.
Qed.

Lemma filter_none {A : Type} (P : Prop) `{Decision P} (l : list A) :
  ¬ P → filter (λ _, P) l = [].
Proof.
  intros HP. induction l as [|x l IH]; [done|].
  by rewrite filter_cons_False.
Qed.

Lemma join_member_orgs_key (pm : profile * option organization_member)
    (row : profile * option organization_member * option organization) :
  row ∈ join_member_orgs d pm → row.1 = pm.
Proof.
  unfold join_member_orgs. destruct pm as [p [m|]]; cbn [snd].
  - destruct (filter _ (organizations d)) as [|o os].
    + by intros ->%list_elem_of_singleton.
    + by intros (o' & -> & _)%list_elem_of_fmap.
  - by intros ->%list_elem_of_singleton.
Qed.

Lemma join_members_key (p : profile) (pm : profile * option organization_member) :
  pm ∈ join_members d p → pm.1 = p.
Proof.
  unfold join_members. destruct (filter _ (organization_members d)) as [|m ms].
  - by intros ->%list_elem_of_singleton.
  - by intros (m' & -> & _)%list_elem_of_fmap.
Qed.

Lemma rows_of_key (p : profile)
    (row : profile * option organization_member * option organization) :
  row ∈ rows_of p → row.1.1 = p.
Proof.
  intros (pm & Hrow & Hpm)%list_elem_of_bind.
  by rewrite (join_member_orgs_key pm row Hrow), (join_members_key p pm Hpm).
Qed.

Lemma rows_of_nonempty (p : profile) : ∃ row, row ∈ rows_of p.
Proof.
  assert (∃ pm, pm ∈ join_members d p) as [pm Hpm].
  { unfold join_members. destruct (filter _ (organization_members d)) as [|m ms];
      eexists; apply list_elem_of_here. }
  assert (∃ row, row ∈ join_member_orgs d pm) as [row Hrow].
  { unfold join_member_orgs. destruct pm as [q [m|]]; simpl;
      [destruct (filter _ (organizations d))|]; eexists; apply list_elem_of_here. }
  exists row. apply list_elem_of_bind. by exists pm.
Qed.

Lemma entries_of_orgs (p : profile) (m : organization_member)
    (os : list organization) :
  omap org_entry_of ((λ o, ((p, Some m), Some o)) <$> os)
  = (λ o, OrgEntry (o_id o) (o_name o) (m_role m) (o_is_public o)) <$> os.
Proof. induction os as [|o os IH]; [done|]. csimpl. by rewrite IH. Qed.

Lemma entries_of_member (p : profile) (m : organization_member) :
  omap org_entry_of (join_member_orgs d (p, Some m))
  = (λ o, OrgEntry (o_id o) (o_name o) (m_role m) (o_is_public o))
      <$> filter (λ o, m_org_id m = o_id o) (organizations d).
Proof.
  unfold join_member_orgs. cbn [snd].
  destruct (filter _ (organizations d)) as [|o os] eqn:Hf; [done|].
  apply entries_of_orgs.
Qed.

Lemma entries_of_members (p : profile) (ms : list organization_member) :
  omap org_entry_of (((λ m, (p, Some m)) <$> ms) ≫= join_member_orgs d)
  = ms ≫= λ m,
      (λ o, OrgEntry (o_id o) (o_name o) (m_role m) (o_is_public o))
        <$> filter (λ o, m_org_id m = o_id o) (organizations d).
Proof.
  induction ms as [|m ms IH]; [done|]. csimpl.
  by rewrite omap_app, entries_of_member, IH.
Qed.

(** The aggregate of the rows of one profile. *)
Lemma rows_of_entries (p : profile) :
  omap org_entry_of (rows_of p) = roles_of d (p_id p).
Proof.
  unfold roles_of, join_members.
  destruct (filter _ (organization_members d)) as [|m ms] eqn:Hf; [done|].
  apply entries_of_members.
Qed.

Lemma filter_keep {A : Type} (P : A → Prop) `{∀ x, Decision (P x)} (l : list A) :
  (∀ x, x ∈ l → P x) → filter P l = l.
Proof.
  induction l as [|x l IH]; intros Hall; [done|].
  rewrite filter_cons_True by (apply Hall; left).
  f_equal. apply IH. intros y Hy. apply Hall. by right.
Qed.

Lemma filter_drop {A : Type} (P : A → Prop) `{∀ x, Decision (P x)} (l : list A) :
  (∀ x, x ∈ l → ¬ P x) → filter P l = [].
Proof.
  induction l as [|x l IH]; intros Hall; [done|].
  rewrite filter_cons_False by (apply Hall; left).
  apply IH. intros y Hy. apply Hall. by right.
Qed.

Lemma filter_joined (l : list profile) (p : profile) :
  NoDup l →
  filter (λ row, row.1.1 = p) (l ≫= λ q, rows_of q)
  = if decide (p ∈ l) then rows_of p else [].
Proof.
  induction l as [|q l IH]; [done|].
  intros [Hq Hl]%NoDup_cons. rewrite bind_cons, filter_app, IH by done.
  destruct (decide (q = p)) as [->|Hne].
  - rewrite filter_keep by apply rows_of_key.
    rewrite decide_False by done. rewrite decide_True by left.
    apply app_nil_r.
  - rewrite filter_drop.
    2:{ intros row Hrow Hkey. by rewrite (rows_of_key q row Hrow) in Hkey. }
    simpl. destruct (decide (p ∈ l)) as [Hin|Hout].
    + rewrite decide_True; [done|by right].
    + rewrite decide_False; [done|].
      intros [->|?]%elem_of_cons; done.
Qed.

Lemma joined_keys (p : profile) :
  p ∈ (λ row, row.1.1) <$> joined ↔ p ∈ profiles d.
Proof.
  rewrite bind_bind, list_elem_of_fmap. split.
  - intros (row & -> & (q & Hrow & Hq)%list_elem_of_bind).
    by rewrite (rows_of_key q row Hrow).
  - intros Hp. destruct (rows_of_nonempty p) as [row Hrow].
    exists row. split; [by rewrite (rows_of_key p row Hrow)|].
    apply list_elem_of_bind. by exists p.
Qed.

Lemma get_all_users_with_roles_perm (cx : session) :
  is_super_admin cx (auth_uid cx) d = true →
  NoDup (profiles d) →
  get_all_users_with_roles email_le cx d ≡ₚ user_row d <$> profiles d.
Proof.
  intros Hsa Hnd. unfold get_all_users_with_roles.
  rewrite merge_sort_Permutation, filter_all by done.
  assert (remove_dups ((λ row, row.1.1) <$> joined) ≡ₚ profiles d) as Hkeys.
  { apply NoDup_Permutation; [apply NoDup_remove_dups|done|].
    intros p. rewrite elem_of_remove_dups. apply joined_keys. }
  rewrite Hkeys.
  erewrite list_fmap_ext; [done|]. intros _ p Hp%list_elem_of_lookup_2.
  unfold user_row. f_equal. rewrite bind_bind, filter_joined by done.
  rewrite decide_True by done. apply rows_of_entries.
Qed.

(** X15.  For a super-admin, [get_all_users_with_roles] returns one row
    per profile, ordered by email, and the [organizations] of a row are
    exactly the memberships of that user joined with their organizations
    (an empty array for a user without membership).  For any other caller
    it raises nothing and returns the empty list. *)
Theorem get_all_users_with_roles_exact (cx : session) :
  consistent d →
  (is_super_admin cx (auth_uid cx) d = true →
   get_all_users_with_roles email_le cx d ≡ₚ user_row d <$> profiles d
   ∧ StronglySorted (by_email email_le) (get_all_users_with_roles email_le cx d)
   ∧ ∀ p, p ∈ profiles d →
          e_org_id <$> roles_of d (p_id p)
          = m_org_id <$> filter (λ m, p_id p = m_user_id m)
                           (organization_members d))
  ∧ (is_super_admin cx (auth_uid cx) d = false →
     get_all_users_with_roles email_le cx d = []).
Proof.
  intros Hcons. split.
  - intros Hsa.
    assert (NoDup (profiles d)) as Hnd.
    { destruct Hcons as (_ & _ & _ & _ & _ & _ & Hp). by apply NoDup_fmap_1 in Hp. }
    split; [by apply get_all_users_with_roles_perm|].
    split; [apply (StronglySorted_merge_sort _)|].
    intros p _. unfold roles_of.
    assert (∀ m, m ∈ filter (λ m, p_id p = m_user_id m) (organization_members d) →
                 org_exists d (m_org_id m)) as Hfk.
    { intros m [_ Hm]%list_elem_of_filter. by apply consistent_member_org. }
    induction (filter _ (organization_members d)) as [|m ms IH]; [done|].
    rewrite bind_cons, fmap_app, IH by (intros m' Hm'; apply Hfk; by right).
    csimpl. f_equal.
    pose proof (filter_key_short (organizations d) (Some (m_org_id m))
                  (consistent_organizations_pkey d Hcons)) as Hshort.
    assert (∃ o, o ∈ organizations d ∧ o_id o = m_org_id m) as (o & Ho & Hid).
    { pose proof (Hfk m (list_elem_of_here _ _)) as (o & Hid & Ho)%list_elem_of_fmap.
      by exists o. }
    assert (filter (λ o, m_org_id m = o_id o) (organizations d)
            = filter (λ o, Some (m_org_id m) = Some (o_id o)) (organizations d))
      as Hfilter by (apply list_filter_iff; intros x; split; congruence).
    rewrite Hfilter, Hshort.
    destruct (head _) as [o'|] eqn:Hhead.
    + apply head_Some_elem_of, list_elem_of_filter in Hhead as [[= Hid'] _].
      simpl. by rewrite Hid'.
    + apply head_None in Hhead.
      by destruct (filter_nil_not_elem_of _ _ o Hhead); [rewrite Hid|].
  - intros Hden. unfold get_all_users_with_roles.
    rewrite filter_none by congruence. done.
Qed.

End Users.

(** X15 at the sample deployment, with the byte-wise order on text. *)
Lemma get_all_users_with_roles_exact_witness :
  let cx := Sample.as_root 0 in
  (consistent Sample.base ∧ is_super_admin cx (auth_uid cx) Sample.base = true)
  ∧ get_all_users_with_roles String.le cx Sample.base
    = [user_row Sample.base (Profile Sample.alice "alice@x.com" (Some "alice"));
       user_row Sample.base (Profile Sample.root "root@x.com" (Some "root"))]
  ∧ get_all_users_with_roles String.le cx Sample.base
    ≡ₚ user_row Sample.base <$> profiles Sample.base
  ∧ get_all_users_with_roles String.le (Sample.as_alice 0) Sample.base = [].
Proof.
  intros cx. split; [split; [apply sample_base_consistent|reflexivity]|].
  split; [reflexivity|]. split.
  - by apply (get_all_users_with_roles_exact String.le Sample.base cx
                sample_base_consistent).
  - by apply (get_all_users_with_roles_exact String.le Sample.base
                (Sample.as_alice 0) sample_base_consistent).
Defined.

(** ** The role resolver *)

Lemma get_user_org_role_Some (d : db) (u o : uuid) (r : org_role) :
  get_user_org_role d u o = Some r → Member o u r ∈ organization_members d.
Proof.
  unfold get_user_org_role. destruct (head _) as [x|] eqn:Hhead; [|done].
  intros [= <-].
  apply head_Some_elem_of, list_elem_of_filter in Hhead as [[<- <-] Hx].
  by destruct x.
Qed.

(** X16.  The role resolver reads memberships back: under the declared
    constraints [get_user_org_role(u, o)] is the role of the one membership
    row of [u] in [o], it is null exactly when [user_is_org_member(u, o)] is
    false, and every role it reports belongs to a stored row. *)
Theorem get_user_org_role_reads_memberships (d : db) :
  consistent d →
  (∀ m, m ∈ organization_members d →
        get_user_org_role d (m_user_id m) (m_org_id m) = Some (m_role m))
  ∧ (∀ u o r, get_user_org_role d u o = Some r →
              Member o u r ∈ organization_members d)
  ∧ (∀ u o, user_is_org_member d u o = true ↔ is_Some (get_user_org_role d u o)).
Proof.
  intros (_ & Hkey & _). split; [|split].
  - intros m Hm.
    eapply get_user_org_role_all; [exact Hm|done|done|].
    intros m' Hm' Hu Ho. f_equal.
    apply (NoDup_fmap_eq member_key (organization_members d)); [done..|].
    unfold member_key. by rewrite Hu, Ho.
  - apply get_user_org_role_Some.
  - intros u o. unfold user_is_org_member, get_user_org_role.
    rewrite bool_decide_eq_true, Exists_exists. split.
    + intros (m & Hm & Hc).
      destruct (head _) as [x|] eqn:Hhead; [by eexists|].
      apply head_None in Hhead.
      by destruct (filter_nil_not_elem_of _ _ m Hhead).
    + destruct (head _) as [x|] eqn:Hhead; [|by intros [? ?]].
      intros _. apply head_Some_elem_of, list_elem_of_filter in Hhead as [? ?].
      by exists x.
Qed.

(** X16 at the sample deployment. *)
Lemma get_user_org_role_reads_memberships_witness :
  consistent Sample.base
  ∧ get_user_org_role Sample.base Sample.alice Sample.public_org = Some viewer
  ∧ user_is_org_member Sample.base Sample.alice Sample.acme = false.
Proof.
  split; [apply sample_base_consistent|].
  destruct (get_user_org_role_reads_memberships Sample.base
              sample_base_consistent) as (Hread & _ & Hmem).
  split.
  - apply (Hread (Member Sample.public_org Sample.alice viewer)).
    apply list_elem_of_further, list_elem_of_here.
  - destruct (user_is_org_member Sample.base Sample.alice Sample.acme) eqn:E;
      [|done].
    by apply Hmem in E as [r Hr].
Defined.

(** ** Policies after a promotion *)

Lemma caller_org_role_uid (cx : session) (d : db) (u o : uuid) :
  auth_uid cx = Some u → caller_org_role cx d o = get_user_org_role d u o.
Proof. unfold caller_org_role. by intros ->. Qed.

Lemma promote_user_to_owner_role (cx : session) (d d' : db) (u o : uuid) :
  run (promote_user_to_owner cx u o) d = Done true d' →
  get_user_org_role d' u o = Some owner.
Proof.
  destruct (is_super_admin cx (auth_uid cx) d) eqn:Hsa.
  2:{ by rewrite promote_user_to_owner_denied. }
  rewrite promote_user_to_owner_allowed by done.
  intros [= Hfound Hd']; subst d'.
  apply bool_decide_eq_true, Exists_exists in Hfound as (m & Hm & Hu & Ho).
  eapply (get_user_org_role_all _ _ _ _ (set_role owner m)); [|done|done|].
  - simpl. apply update_rows_hit; [done|by split].
  - intros m'. apply promoted_rows_are_owner.
Qed.

(** X17.  A member whose role is viewer and who is no super-admin passes
    none of the write policies on the prompts of the organization.  Once
    [promote_user_to_owner] has returned true for them, they pass the
    update and delete policy for every prompt of the organization, the
    insert policy for prompts they create, and the policies to update the
    organization and to manage its members. *)
Theorem promoted_user_passes_policies (cx cxu : session) (d d' : db)
    (u o : uuid) :
  run (promote_user_to_owner cx u o) d = Done true d' →
  auth_uid cxu = Some u →
  (is_super_admin cxu (Some u) d = false →
   get_user_org_role d u o = Some viewer →
   ∀ p, pr_org_id p = o →
        prompts_update_policy cxu d p = false
        ∧ prompts_insert_policy cxu d p = false)
  ∧ (∀ p, pr_org_id p = o →
          prompts_update_policy cxu d' p = true
          ∧ (pr_creator_id p = u → prompts_insert_policy cxu d' p = true))
  ∧ (∀ org, o_id org = o → organizations_update_policy cxu d' org = true)
  ∧ (∀ m, m_org_id m = o → members_manage_policy cxu d' m = true).
Proof.
  intros Hrole%promote_user_to_owner_role Huid. split; [|split; [|split]].
  - intros Hsa Hviewer p <-.
    unfold prompts_update_policy, prompts_insert_policy.
    rewrite (caller_org_role_uid cxu d u) by done.
    rewrite Huid, Hsa, Hviewer. simpl. by rewrite andb_false_r.
  - intros p <-. unfold prompts_update_policy, prompts_insert_policy.
    rewrite (caller_org_role_uid cxu d' u), Hrole by done. simpl.
    rewrite orb_true_r. split; [done|].
    intros ->. rewrite Huid. by rewrite bool_decide_eq_true_2.
  - intros org <-. unfold organizations_update_policy.
    rewrite (caller_org_role_uid cxu d' u), Hrole by done.
    rewrite bool_decide_eq_true_2 by done. apply orb_true_r.
  - intros m <-. unfold members_manage_policy.
    rewrite (caller_org_role_uid cxu d' u), Hrole by done.
    rewrite bool_decide_eq_true_2 by done. apply orb_true_r.
Qed.

(** X17 at the sample deployment: [root] promotes the viewer [alice] in
    the public organization. *)
Lemma promoted_user_passes_policies_witness :
  let cx := Sample.as_root 0 in
  let cxu := Sample.as_alice 0 in
  let d' := commit (promote_user_to_owner cx Sample.alice Sample.public_org)
              Sample.base in
  let p := Prompt 50%N Sample.public_org Sample.root in
  (run (promote_user_to_owner cx Sample.alice Sample.public_org) Sample.base
   = Done true d'
   ∧ auth_uid cxu = Some Sample.alice)
  ∧ prompts_update_policy cxu Sample.base p = false
  ∧ prompts_update_policy cxu d' p = true.
Proof.
  intros cx cxu d' p.
  assert (run (promote_user_to_owner cx Sample.alice Sample.public_org)
            Sample.base = Done true d') as Hrun by reflexivity.
  split; [by split|].
  destruct (promoted_user_passes_policies cx cxu Sample.base d' Sample.alice
              Sample.public_org Hrun eq_refl) as (Hbefore & Hafter & _).
  split.
  - by apply (Hbefore eq_refl eq_refl p).
  - by apply (Hafter p).
Defined.

(** X18.  A super-admin passes the policies to create and update
    organizations, to manage memberships and to insert (as creator), update
    and delete prompts in every organization, member or not.  The policy
    for reading prompts has no super-admin clause: a super-admin who is not
    a member of the prompt's organization does not pass it. *)
Theorem super_admin_policies (cx : session) (d : db) :
  is_super_admin cx (auth_uid cx) d = true →
  organizations_insert_policy cx d = true
  ∧ (∀ o, organizations_update_policy cx d o = true
          ∧ organizations_select_policy cx d o = true)
  ∧ (∀ m, members_manage_policy cx d m = true)
  ∧ (∀ p, prompts_update_policy cx d p = true
          ∧ (auth_uid cx = Some (pr_creator_id p) →
             prompts_insert_policy cx d p = true)
          ∧ (prompts_select_policy cx d p = true
             ↔ ∃ u, auth_uid cx = Some u
                    ∧ is_Some (get_user_org_role d u (pr_org_id p)))).
Proof.
  intros Hsa.
  unfold organizations_insert_policy, organizations_update_policy,
    organizations_select_policy, members_manage_policy, prompts_update_policy,
    prompts_insert_policy, prompts_select_policy, caller_is_org_member.
  rewrite Hsa. simpl. do 3 (split; [done|]).
  intros p. split; [done|]. split.
  - intros ->. by rewrite bool_decide_eq_true_2.
  - destruct (auth_uid cx) as [u|]; [|split; [done|by intros (? & ? & _)]].
    unfold user_is_org_member, get_user_org_role.
    rewrite bool_decide_eq_true, Exists_exists. split.
    + intros (m & Hm & Hc). exists u. split; [done|].
      destruct (head _) as [x|] eqn:Hhead; [by eexists|].
      apply head_None in Hhead.
      by destruct (filter_nil_not_elem_of _ _ m Hhead).
    + intros (u' & [= <-] & Hrole).
      destruct (head _) as [x|] eqn:Hhead; [|by destruct Hrole].
      apply head_Some_elem_of, list_elem_of_filter in Hhead as [? ?].
      by exists x.
Qed.

(** X18 at the sample deployment: [root] may update a prompt of Acme but
    does not pass the policy to read it. *)
Lemma super_admin_policies_witness :
  let cx := Sample.as_root 0 in
  let p := Prompt 50%N Sample.acme Sample.alice in
  is_super_admin cx (auth_uid cx) Sample.base = true
  ∧ prompts_update_policy cx Sample.base p = true
  ∧ prompts_select_policy cx Sample.base p = false.
Proof.
  intros cx p. split; [reflexivity|].
  destruct (super_admin_policies cx Sample.base eq_refl)
    as (_ & _ & _ & Hprompts).
  destruct (Hprompts p) as (Hupdate & _ & Hselect).
  split; [exact Hupdate|].
  apply not_true_is_false. intros E.
  apply Hselect in E as (u & [= <-] & [r Hr]). done.
Defined.

(** ** Outcomes of a signup *)

(** X19.  For a user that is new (no profile, no membership) the signup
    trigger always completes: it adds the profile, with the email as
    display name when the signup carries none, and the viewer membership
    in the first public organization when there is one.  When a profile
    with the user's id already exists it aborts with a unique violation and
    commits nothing. *)
Theorem handle_invitation_signup_outcome (cx : session) (NEW : auth_user)
    (new_org_id : uuid) (d : db) :
  (new_user d (u_id NEW) →
   ∃ d',
     run (handle_invitation_signup cx NEW new_org_id) d = Done NEW d'
     ∧ profiles d'
       = profiles d
         ++ [Profile (u_id NEW) (u_email NEW)
               (Some (default (u_email NEW) (u_display_name NEW)))]
     ∧ organization_members d'
       = organization_members d
         ++ match select_public_org d with
            | Some o => [Member o (u_id NEW) viewer]
            | None => []
            end
     ∧ organizations d' = organizations d
     ∧ invitations d' = invitations d)
  ∧ (u_id NEW ∈ p_id <$> profiles d →
     run (handle_invitation_signup cx NEW new_org_id) d
     = Abort (unique_violation "profiles_pkey")
     ∧ commit (handle_invitation_signup cx NEW new_org_id) d = d).
Proof.
  split.
  - intros Hnew. exists (after_regular_signup d NEW).
    split; [by apply handle_invitation_signup_run|].
    split; [|done]. simpl. unfold new_profile. by destruct (u_display_name NEW).
  - intros Hdup.
    assert (run (handle_invitation_signup cx NEW new_org_id) d
            = Abort (unique_violation "profiles_pkey")) as Hrun.
    { rewrite handle_invitation_signup_regular. unfold regular_signup. simpl.
      by rewrite decide_True. }
    split; [done|]. by eapply commit_abort.
Qed.

(** X19 at the sample deployment: the signup of [guest@x.com]. *)
Lemma handle_invitation_signup_outcome_witness :
  let cx := Sample.signup_at 0 in
  new_user Sample.base (u_id Sample.guest)
  ∧ ∃ d',
      run (handle_invitation_signup cx Sample.guest 9%N) Sample.base
      = Done Sample.guest d'
      ∧ profiles d'
        = profiles Sample.base
          ++ [Profile Sample.bob "guest@x.com" (Some "guest@x.com")].
Proof.
  intros cx.
  assert (new_user Sample.base (u_id Sample.guest)) as Hnew
    by (by apply (bool_decide_unpack _)).
  split; [exact Hnew|].
  destruct (handle_invitation_signup_outcome cx Sample.guest 9%N Sample.base)
    as [Hok _].
  destruct (Hok Hnew) as (d' & Hrun & Hprof & _).
  by exists d'.
Defined.

(** ** The status function and the gate *)

Lemma invalid_format_not_denied :
  ¬ PermissionDenied (raise_exception "Invalid email format").
Proof. intros [what Hw]. cbv in Hw. discriminate Hw. Qed.

Lemma constraint_not_denied (e : sqlerr) :
  (∀ msg, e ≠ raise_exception msg) → ¬ PermissionDenied e.
Proof. intros He [what Hw]. by apply (He _ Hw). Qed.

(** X20.  The flag of [get_current_user_super_admin_status] is the gate of
    the commands: when it is false each of the four gated commands is
    refused with [PermissionDenied], when it is true none of them is,
    whatever else may make them fail.  The reported user is [auth.uid()],
    and without a caller the status is [false] with null user and email. *)
Theorem status_flag_is_the_gate (cx : session) (users : list auth_user) (d : db) :
  let s := get_current_user_super_admin_status cx users d in
  s_user_id s = auth_uid cx
  ∧ (auth_uid cx = None → s = SuperAdminStatus false None None)
  ∧ (s_is_super_admin s = false →
     (∀ name is_public new_id,
        refused (create_organization_as_super_admin cx name is_public new_id) d)
     ∧ (∀ email role org new_id token,
          refused (create_user_invitation cx email role org new_id token) d)
     ∧ (∀ invitation_id, refused (revoke_invitation cx invitation_id) d)
     ∧ (∀ u o, refused (promote_user_to_owner cx u o) d))
  ∧ (s_is_super_admin s = true →
     (∀ name is_public new_id,
        ¬ refused (create_organization_as_super_admin cx name is_public new_id) d)
     ∧ (∀ email role org new_id token,
          ¬ refused (create_user_invitation cx email role org new_id token) d)
     ∧ (∀ invitation_id, ¬ refused (revoke_invitation cx invitation_id) d)
     ∧ (∀ u o, ¬ refused (promote_user_to_owner cx u o) d)).
Proof.
  intros s. split; [done|]. split.
  { unfold s, get_current_user_super_admin_status, is_super_admin.
    intros ->. simpl. f_equal.
    induction users as [|u us IH]; [done|].
    by rewrite filter_cons_False. }
  split.
  - intros Hden. simpl in Hden. split; [|split; [|split]]; intros.
    + apply (refused_intro _ _ "create organizations directly").
      by apply create_organization_denied.
    + apply (refused_intro _ _ "create invitations").
      by apply create_user_invitation_denied.
    + apply (refused_intro _ _ "revoke invitations").
      by apply revoke_invitation_denied.
    + apply (refused_intro _ _ "promote users").
      by apply promote_user_to_owner_denied.
  - intros Hsa. simpl in Hsa. split; [|split; [|split]]; intros.
    + intros [(e & Hrun & Hden) _]. revert Hrun.
      unfold create_organization_as_super_admin. simpl. rewrite Hsa. simpl.
      case_decide; simpl.
      { intros [= <-]. by apply (constraint_not_denied _) in Hden. }
      destruct (auth_uid cx); simpl.
      2:{ intros [= <-]. by apply (constraint_not_denied _) in Hden. }
      repeat (case_decide; simpl); try done;
        intros [= <-]; by apply (constraint_not_denied _) in Hden.
    + intros [(e & Hrun & Hden) _]. revert Hrun.
      unfold create_user_invitation. simpl. rewrite Hsa. simpl.
      destruct (Text.matches Text.email_format email); simpl.
      2:{ intros [= <-]. by apply invalid_format_not_denied. }
      repeat (case_decide; simpl);
        try (intros [= <-]; by apply (constraint_not_denied _) in Hden).
      destruct (org_ref_ok d org); simpl; [done|].
      intros [= <-]. by apply (constraint_not_denied _) in Hden.
    + intros [(e & Hrun & _) _]. by rewrite revoke_invitation_allowed in Hrun.
    + intros [(e & Hrun & _) _]. by rewrite promote_user_to_owner_allowed in Hrun.
Qed.

(** X20 at the sample deployment: the flag is false for [alice], whose
    revocation is refused, and true for [root], whose revocation is not. *)
Lemma status_flag_is_the_gate_witness :
  let sa := get_current_user_super_admin_status (Sample.as_alice 0) []
              Sample.base in
  let sr := get_current_user_super_admin_status (Sample.as_root 0) []
              Sample.base in
  (s_is_super_admin sa = false ∧ s_is_super_admin sr = true)
  ∧ refused (revoke_invitation (Sample.as_alice 0) 7%N) Sample.base
  ∧ ¬ refused (revoke_invitation (Sample.as_root 0) 7%N) Sample.base.
Proof.
  intros sa sr. split; [by split|]. split.
  - by apply (status_flag_is_the_gate (Sample.as_alice 0) [] Sample.base).
  - by apply (status_flag_is_the_gate (Sample.as_root 0) [] Sample.base).
Defined.

(** X2 at the sample deployment: [root] invites [New.User@Example.COM]. *)
Lemma stored_address_is_valid_witness :
  let cx := Sample.as_root 0 in
  let call := create_user_invitation cx "New.User@Example.COM" viewer None
                105%N "tok-5" in
  run call Sample.base = Done 105%N (commit call Sample.base)
  ∧ ∃ i, invitations (commit call Sample.base) = invitations Sample.base ++ [i]
         ∧ i_email i = "new.user@example.com"
         ∧ Text.matches Text.email_format (i_email i) = true.
Proof.
  intros cx call.
  assert (run call Sample.base = Done 105%N (commit call Sample.base)) as Hrun
    by reflexivity.
  split; [exact Hrun|].
  destruct (stored_address_is_valid cx Sample.base (commit call Sample.base)
              "New.User@Example.COM" viewer None 105%N 105%N "tok-5" Hrun)
    as (i & Hi & _ & He & Hfmt & _).
  exists i. by rewrite He in *.
Defined.
